(** * SchedulerMark benchmark runner: a shallow embedding and its properties

    The development follows the three TypeScript modules of the repository:

    - [benchmarkConfig.ts]: the model lists, the prompts, [buildJudgePrompt]
      and [slugify];
    - [benchmarkUtils.ts]: [fileExists], [callOpenRouter] and [parseVerdict];
    - [run-benchmark.ts]: [main], with its critique loader, its solver phase
      and its judge phase.  The file holds two variants of [main]; the
      model follows the later one, which reads [SOLVER_MODELS] and
      [JUDGE_MODELS], checks a stored solution before it reuses it, and
      logs through [logToFile].

    JavaScript strings are modelled as [string]; a character is one ASCII
    code unit, so [trim], [toUpperCase] and [toLowerCase] act on the ASCII
    white space and the ASCII letters.  Code that awaits the file system or
    the network runs in a small state-and-exception monad over a [World]. *)

From Stdlib Require Import ZArith Ascii String List Bool Lia DecimalString.
From stdpp Require Import base decidable option list gmap strings.

Local Open Scope char_scope.
Local Open Scope Z_scope.
Local Open Scope stdpp_scope.

#[local] Arguments String.append !s1 s2 /.
#[local] Set Warnings "-register-all,-clear-no-such-hyp".

(* ================================================================== *)
(** ** JavaScript string primitives used by the sources *)
(* ================================================================== *)

Module Js.

(** White space and line terminators below code unit 128, as removed by
    [String.prototype.trim]. *)
Definition isWhiteSpace (c : ascii) : bool :=
  match c with
  | "009" | "010" | "011" | "012" | "013" | " " => true
  | _ => false
  end%char.

Definition isLower (c : ascii) : bool :=
  let n := nat_of_ascii c in ((97 <=? n) && (n <=? 122))%nat.

Definition isUpper (c : ascii) : bool :=
  let n := nat_of_ascii c in ((65 <=? n) && (n <=? 90))%nat.

Definition toUpperCaseChar (c : ascii) : ascii :=
  if isLower c then ascii_of_nat (nat_of_ascii c - 32) else c.

Definition toLowerCaseChar (c : ascii) : ascii :=
  if isUpper c then ascii_of_nat (nat_of_ascii c + 32) else c.

Fixpoint mapChars (f : ascii -> ascii) (s : string) : string :=
  match s with
  | EmptyString => EmptyString
  | String c r => String (f c) (mapChars f r)
  end.

Definition toUpperCase : string -> string := mapChars toUpperCaseChar.
Definition toLowerCase : string -> string := mapChars toLowerCaseChar.

Fixpoint trimStart (s : string) : string :=
  match s with
  | EmptyString => EmptyString
  | String c r => if isWhiteSpace c then trimStart r else s
  end.

Fixpoint trimEnd (s : string) : string :=
  match s with
  | EmptyString => EmptyString
  | String c r =>
      match trimEnd r with
      | EmptyString => if isWhiteSpace c then EmptyString else String c EmptyString
      | r' => String c r'
      end
  end.

Definition trim (s : string) : string := trimEnd (trimStart s).

Definition isEmpty (s : string) : bool :=
  match s with EmptyString => true | _ => false end.

Fixpoint startsWith (p s : string) : bool :=
  match p, s with
  | EmptyString, _ => true
  | String a p', String b s' => if ascii_dec a b then startsWith p' s' else false
  | String _ _, EmptyString => false
  end.

(** [s.includes(p)] *)
Fixpoint includes (p s : string) : bool :=
  startsWith p s ||
  match s with
  | EmptyString => false
  | String _ r => includes p r
  end.

(** [parts.join(sep)] *)
Fixpoint join (sep : string) (parts : list string) : string :=
  match parts with
  | [] => ""
  | [x] => x
  | x :: rest => x +:+ sep +:+ join sep rest
  end.

Definition LF : string := String "010" EmptyString.

(** [s.split(/\r?\n/)]: a separator is a line feed, together with the
    carriage return just before it when there is one. *)
Fixpoint splitLines (s : string) : list string :=
  match s with
  | EmptyString => [""]
  | String c r =>
      let continue :=
        match splitLines r with
        | l :: ls => String c l :: ls
        | [] => [String c ""]
        end in
      match c with
      | "010"%char => "" :: splitLines r
      | "013"%char =>
          match r with
          | String "010"%char r' => "" :: splitLines r'
          | _ => continue
          end
      | _ => continue
      end
  end.

(** [xs.findIndex(p)], with [-1] when no element satisfies [p]. *)
Fixpoint findIndexFrom {A} (i : Z) (p : A -> bool) (xs : list A) : Z :=
  match xs with
  | [] => -1
  | x :: r => if p x then i else findIndexFrom (i + 1) p r
  end.

Definition findIndex {A} (p : A -> bool) (xs : list A) : Z :=
  findIndexFrom 0 p xs.

(** [xs[i]] *)
Definition index {A} (xs : list A) (i : Z) : option A :=
  if i <? 0 then None else xs !! Z.to_nat i.

(** [xs.slice(start)] *)
Definition slice {A} (start : Z) (xs : list A) : list A :=
  if start <? 0
  then drop (Z.to_nat (Z.max (Z.of_nat (length xs) + start) 0)) xs
  else drop (Z.to_nat start) xs.

(** Decimal rendering of a natural number, as in a template literal. *)
Definition natToString (n : nat) : string :=
  NilEmpty.string_of_uint (Nat.to_uint n).

End Js.

(* ================================================================== *)
(** ** benchmarkConfig.ts: slugify *)
(* ================================================================== *)

(** [model.replace(/[/:]/g, "_")] *)
Definition slugChar (c : ascii) : ascii :=
  match c with
  | "/"%char | ":"%char => "_"%char
  | _ => c
  end.

Definition slugify (model : string) : string := Js.mapChars slugChar model.

(* ================================================================== *)
(** ** benchmarkUtils.ts: parseVerdict *)
(* ================================================================== *)

Record Verdict := { verdict : string; explanation : string }.

Definition parseVerdict (raw : string) : Verdict :=
  let lines := map Js.trim (Js.splitLines raw) in
  let idx := Js.findIndex (fun l => (0 <? String.length l)%nat) lines in
  if idx =? -1 then
    {| verdict := "ERROR"; explanation := "Empty response" |}
  else
    let first := Js.toUpperCase <$> Js.index lines idx in
    let verdict :=
      if decide (first = Some "YES") then "YES"
      else if decide (first = Some "NO") then "NO" else "NO" in
    let explanation := Js.trim (Js.join Js.LF (Js.slice (idx + 1) lines)) in
    {| verdict := verdict; explanation := explanation |}.

(** The Verdict Parser as the specification words it: lines are separated
    by line feeds, every line is trimmed, the first non-empty line decides,
    and what follows it is the explanation. *)
Module VerdictReference.

Fixpoint splitOnLineFeed (s : string) : list string :=
  match s with
  | EmptyString => [""]
  | String c r =>
      if ascii_dec c "010"%char then "" :: splitOnLineFeed r
      else match splitOnLineFeed r with
           | l :: ls => String c l :: ls
           | [] => [String c ""]
           end
  end.

Fixpoint firstNonEmptyLine (lines : list string) : option (string * list string) :=
  match lines with
  | [] => None
  | l :: rest => if Js.isEmpty l then firstNonEmptyLine rest else Some (l, rest)
  end.



End VerdictReference.


(* ================================================================== *)
(** ** benchmarkConfig.ts: model lists and prompts *)
(* ================================================================== *)

Definition MODELS : list string :=
  [ "google/gemini-3-pro-preview";
    "anthropic/claude-sonnet-4.5";
    "openai/gpt-5.1";
    "anthropic/claude-opus-4.1";
    "x-ai/grok-4";
    "qwen/qwen3-max";
    "openai/gpt-5.1-codex";
    "moonshotai/kimi-k2-thinking" ].

Definition SOLVER_MODELS : list string := MODELS.

Definition JUDGE_MODELS : list string := MODELS.

Definition doubleQuote : string := String (ascii_of_nat 34) EmptyString.

Definition tripleQuote : string := doubleQuote +:+ doubleQuote +:+ doubleQuote.

Definition ORIGINAL_REQUEST : string :=
  Js.trim
  "Generate a soccer schedule with 10 teams that has exactly 8 games per team (except Team 1 and Team 2 must only have exactly 4 games and try to have them play their games within the first 7 game weeks and Team 10 must have exactly 4 games played in any match week), playing on Sundays, starting on November 23 and continuing until February 1 (no games on 12/28 and 1/4). No team plays more than once in the same week (strictly enforced). Byes are okay. Maximum of 8 games per Match Day. Team 1 and Team 2 must play each other at least once. No byes for Team 2 in the first two game weeks. Avoid repeat opponents but 2-4 instances of repeat opponents are okay. If there are repeat opponent, try not to have them play in back-to-back weeks. Output excel file with three tabs, Match List, Byes Per Week, and Team Summary. Match List tab should have separate columns for each opponent as well as 7 rows for each Match Day (leave blank rows if necessary). Byes per Week shall include a count of Byes and dates of Byes for each team. Team summary shall have 3 columns: Team, # Games Played, Opponents (in date order but don't include dates). If possible, give Team 6 a bye on 12/21 and 1/18.".

Definition SOLVER_PROMPT : string :=
  Js.trim (
  "
Here is a REQUEST FROM A USER:

" +:+
  tripleQuote +:+
  "
" +:+
  ORIGINAL_REQUEST +:+
  "
" +:+
  tripleQuote +:+
  "

YOUR TASK:

1. Produce a solution to this request in a single HTML document.
2. Include, somewhere in the HTML, an interactive verification tool that allows users to step through and validate that your solution correctly satisfies each requirement from the original request.

Constraints:

- Output ONLY a single HTML document, starting with <!DOCTYPE html> and <html> and ending with </html>.
- Do NOT include any commentary or Markdown outside the HTML.
- Within the HTML, you are free to choose any structure, tables, or layout you like, as long as a human can see your schedule and read your explanation.
").

Definition JUDGE_PROMPT_TEMPLATE : string :=
  Js.trim (
  "
You are reviewing another model's solution to a scheduling task.

Here is the FULL PROMPT the solver received:

" +:+
  tripleQuote +:+
  "
" +:+
  SOLVER_PROMPT +:+
  "
" +:+
  tripleQuote +:+
  "

Here is ANOTHER MODEL'S SOLUTION as HTML:

```html
{{SOLUTION_HTML_HERE}}
```

Is this solution correct? Why or why not?

1. On the FIRST LINE, output exactly either:
   - YES
   - NO

2. After that first line, write at most 250 words explaining WHY you gave that answer.

Format:

- First non-empty line: YES or NO
- Then a blank line
- Then your explanation (<= 250 words) as plain text.
").

Module JsReplace.

Fixpoint dropChars (n : nat) (s : string) : string :=
  match n, s with
  | O, _ => s
  | S n', String _ r => dropChars n' r
  | S _, EmptyString => EmptyString
  end.

(** The replacement text of [String.prototype.replace] for a string
    pattern: [$$], [$&], [$`] and [$'] are expanded, every other character
    stands for itself (a string pattern has no capture groups). *)
Fixpoint getSubstitution (matched before after replacement : string) : string :=
  match replacement with
  | EmptyString => EmptyString
  | String "$"%char (String "$"%char r) =>
      String "$"%char (getSubstitution matched before after r)
  | String "$"%char (String "&"%char r) =>
      matched +:+ getSubstitution matched before after r
  | String "$"%char (String "`"%char r) =>
      before +:+ getSubstitution matched before after r
  | String "$"%char (String "'"%char r) =>
      after +:+ getSubstitution matched before after r
  | String c r => String c (getSubstitution matched before after r)
  end.

Fixpoint replaceFrom (before pattern replacement s : string) : string :=
  if Js.startsWith pattern s then
    let after := dropChars (String.length pattern) s in
    before +:+ getSubstitution pattern before after replacement +:+ after
  else
    match s with
    | EmptyString => before
    | String c r => replaceFrom (before +:+ String c "") pattern replacement r
    end.

(** [s.replace(pattern, replacement)] with a string pattern: the first
    occurrence only. *)
Definition replace (pattern replacement s : string) : string :=
  replaceFrom "" pattern replacement s.

End JsReplace.

Definition buildJudgePrompt (solutionHtml : string) : string :=
  JsReplace.replace "{{SOLUTION_HTML_HERE}}" solutionHtml JUDGE_PROMPT_TEMPLATE.

(* ================================================================== *)
(** ** Run-time values: errors and parsed JSON *)
(* ================================================================== *)

(** A thrown [Error] object: its [name] and its [message]. *)
Record JsError := { errName : string; errMessage : string }.

(** [new Error(message)] *)
Definition newError (message : string) : JsError :=
  {| errName := "Error"; errMessage := message |}.

(** [String(err)], that is [Error.prototype.toString]. *)
Definition errorToString (err : JsError) : string :=
  if Js.isEmpty (errName err) then errMessage err
  else if Js.isEmpty (errMessage err) then errName err
  else errName err +:+ ": " +:+ errMessage err.

(** [err.message || err], as interpolated into the log lines. *)
Definition errorMessageOr (err : JsError) : string :=
  if Js.isEmpty (errMessage err) then errorToString err else errMessage err.

(** What [JSON.parse] returns.  Numbers are the integers; the program only
    tests a number for truthiness and interpolates it. *)
Inductive JsonValue :=
| JNull
| JBool (b : bool)
| JNumber (z : Z)
| JString (s : string)
| JArray (items : list JsonValue)
| JObject (fields : list (string * JsonValue)).

Module Json.

Definition truthy (v : JsonValue) : bool :=
  match v with
  | JNull => false
  | JBool b => b
  | JNumber z => negb (z =? 0)
  | JString s => negb (Js.isEmpty s)
  | JArray _ | JObject _ => true
  end.

Fixpoint assoc (k : string) (fields : list (string * JsonValue)) : option JsonValue :=
  match fields with
  | [] => None
  | (k', v) :: rest => if decide (k = k') then Some v else assoc k rest
  end.

(** [v.k] for a property [k] that no prototype defines: [None] is
    [undefined]. *)
Definition get (v : JsonValue) (k : string) : option JsonValue :=
  match v with
  | JObject fields => assoc k fields
  | _ => None
  end.

Definition truthyProperty (o : option JsonValue) : bool :=
  match o with
  | Some v => truthy v
  | None => false
  end.

Definition zToString (z : Z) : string := NilEmpty.string_of_int (Z.to_int z).

Fixpoint joinComma (parts : list (option string)) : option string :=
  match parts with
  | [] => Some ""
  | [p] => p
  | p :: rest =>
      match p, joinComma rest with
      | Some a, Some b => Some (a +:+ "," +:+ b)
      | _, _ => None
      end
  end.

(** The string a template literal puts in place of a value; [None] is the
    [TypeError] of an object whose own [toString] property (never callable
    after [JSON.parse]) hides the inherited one. *)
Fixpoint toString (v : JsonValue) : option string :=
  match v with
  | JNull => Some "null"
  | JBool true => Some "true"
  | JBool false => Some "false"
  | JNumber z => Some (zToString z)
  | JString s => Some s
  | JArray items =>
      joinComma
        ((fix each (xs : list JsonValue) : list (option string) :=
            match xs with
            | [] => []
            | JNull :: rest => Some "" :: each rest
            | x :: rest => toString x :: each rest
            end) items)
  | JObject fields =>
      match assoc "toString" fields with
      | Some _ => None
      | None => Some "[object Object]"
      end
  end.

Definition toStringProperty (o : option JsonValue) : option string :=
  match o with
  | Some v => toString v
  | None => Some "undefined"
  end.

Definition conversionError : JsError :=
  {| errName := "TypeError";
     errMessage := "Cannot convert object to primitive value" |}.

End Json.

(* ================================================================== *)
(** ** The world outside the process *)
(* ================================================================== *)

(** benchmarkUtils.ts, [OpenRouterChatResponse]. *)
Record ContentPart := { text : option string }.

(** [content?: string | Array<{ text?: string }>]; [ContentOther] stands
    for a value of any other type (null, a number, an object), which the
    declared type leaves out and the check on [typeof] catches. *)
Inductive MessageContent :=
| ContentString (s : string)
| ContentParts (parts : list ContentPart)
| ContentOther (value : JsonValue).

Record Message := { content : option MessageContent }.

Record Choice := { message : option Message }.

Record OpenRouterChatResponse := { choices : option (list Choice) }.

(** A [fetch] response: [bodyText] is what [res.text()] resolves to and
    [bodyJson] what [res.json()] does (it rejects on a body that is no
    JSON). *)
Record Response := {
  status : nat;
  statusText : string;
  bodyText : string;
  bodyJson : JsError + OpenRouterChatResponse
}.

(** [res.ok]: the status is in the range 200-299. *)
Definition ok (res : Response) : bool :=
  ((200 <=? status res) && (status res <=? 299))%nat.

Inductive FetchOutcome :=
| FetchRejected (err : JsError)
| FetchResolved (res : Response).

(** The body of the POST request: [model], [max_tokens] and the content of
    the single user message. *)
Record Request := {
  reqModel : string;
  reqMaxTokens : Z;
  reqPrompt : string
}.

(** [data/critiques.json] as [JSON.parse] sees it. *)
Inductive CritiquesFile :=
| NoCritiquesFile
| UnparsableCritiques (err : JsError)
| ParsedCritiques (parsed : JsonValue).

(** The lines written by [logToFile], [logWarnToFile] and [logErrorToFile],
    one constructor per call site of [main], with the values interpolated
    into the message. *)
Inductive LogMessage :=
| MsgLoadedCritiques (count : nat)
| MsgCouldNotParse (detail : string)               (* warning *)
| MsgSolverPhase
| MsgExistingInvalid (i total : nat) (model : string)   (* warning *)
| MsgSkippingSolver (i total : nat) (model outPath : string)
| MsgGenerating (i total : nat) (model outPath : string)
| MsgResponseLength (responseLength : nat)
| MsgEmptyResponse (model : string)                (* error *)
| MsgFullResponse (html : string)
| MsgVeryShort (responseLength : nat) (model : string)   (* warning *)
| MsgPreviewHeader (previewLength : nat)
| MsgRule
| MsgPreview (preview : string)
| MsgMoreCharacters (more : nat)
| MsgNoHtmlTag (model : string)                    (* warning *)
| MsgErrorGenerating (model : string) (err : JsError)   (* error *)
| MsgJudgePhase
| MsgSkippingPair (pairIndex totalPairs : nat) (pairKey : string)
| MsgJudging (pairIndex totalPairs : nat) (judgeModel solverModel : string)
| MsgErrorJudging (solverModel judgeModel : string) (err : JsError)   (* error *)
| MsgDone (total : nat).

(** The state a run reads and changes.  [files] holds the text files by
    path (the solutions); [critiquesFile] is [data/critiques.json];
    [network n] is how the capability answers the request number [n];
    [requests] and [console] record what the run has sent and logged.
    Reads and writes of the file system do not fail. *)
Record World := {
  files : gmap string string;
  critiquesFile : CritiquesFile;
  network : nat -> FetchOutcome;
  requests : list Request;
  console : list LogMessage
}.

(* ================================================================== *)
(** ** The monad of awaited computations *)
(* ================================================================== *)

Inductive Outcome (A : Type) :=
| Returned (a : A)
| Thrown (err : JsError).

Arguments Returned {A} a.
Arguments Thrown {A} err.

Definition M (A : Type) : Type := World -> Outcome A * World.

Definition ret {A} (a : A) : M A := fun w => (Returned a, w).

Definition throw {A} (err : JsError) : M A := fun w => (Thrown err, w).

Definition bind {A B} (m : M A) (k : A -> M B) : M B :=
  fun w =>
    match m w with
    | (Returned a, w') => k a w'
    | (Thrown err, w') => (Thrown err, w')
    end.

(** [try { body } catch (err) { handler }] *)
Definition tryCatch {A} (body : M A) (handler : JsError -> M A) : M A :=
  fun w =>
    match body w with
    | (Returned a, w') => (Returned a, w')
    | (Thrown err, w') => handler err w'
    end.

Notation "'let*' x ':=' m 'in' k" := (bind m (fun x => k))
  (at level 10, x pattern, m at level 100, k at level 200).

Notation "m ';;' k" := (bind m (fun _ => k))
  (at level 100, k at level 200, right associativity).

(** [for (const x of xs) { state = body(x, state) }] *)
Fixpoint forEach {A S} (xs : list A) (body : A -> S -> M S) (s : S) : M S :=
  match xs with
  | [] => ret s
  | x :: rest => let* s' := body x s in forEach rest body s'
  end.

Definition logToFile (msg : LogMessage) : M unit :=
  fun w =>
    (Returned tt,
     {| files := files w; critiquesFile := critiquesFile w; network := network w;
        requests := requests w; console := console w ++ [msg] |}).

Definition logWarnToFile : LogMessage -> M unit := logToFile.

Definition logErrorToFile : LogMessage -> M unit := logToFile.

(** benchmarkUtils.ts, [fileExists] *)
Definition fileExists (path : string) : M bool :=
  fun w => (Returned (bool_decide (is_Some (files w !! path))), w).

Definition missingFile (path : string) : JsError :=
  {| errName := "Error";
     errMessage := "ENOENT: no such file or directory, open '" +:+ path +:+ "'" |}.

Definition readFile (path : string) : M string :=
  fun w =>
    match files w !! path with
    | Some text => (Returned text, w)
    | None => (Thrown (missingFile path), w)
    end.

Definition writeFile (path text : string) : M unit :=
  fun w =>
    (Returned tt,
     {| files := <[path := text]> (files w); critiquesFile := critiquesFile w;
        network := network w; requests := requests w; console := console w |}).

(** [writeFile(critiquesPath, JSON.stringify(critiques, null, 2))] *)
Definition writeCritiques (critiques : list JsonValue) : M unit :=
  fun w =>
    (Returned tt,
     {| files := files w; critiquesFile := ParsedCritiques (JArray critiques);
        network := network w; requests := requests w; console := console w |}).

(** [fetch(url, { method: "POST", headers, body })]: the request is
    recorded and answered by the network. *)
Definition fetch (req : Request) : M Response :=
  fun w =>
    let w' :=
      {| files := files w; critiquesFile := critiquesFile w; network := network w;
         requests := requests w ++ [req]; console := console w |} in
    match network w (length (requests w)) with
    | FetchRejected err => (Thrown err, w')
    | FetchResolved res => (Returned res, w')
    end.

(** [res.json()] *)
Definition resJson (res : Response) : M OpenRouterChatResponse :=
  match bodyJson res with
  | inl err => throw err
  | inr json => ret json
  end.

(* ================================================================== *)
(** ** benchmarkUtils.ts: callOpenRouter *)
(* ================================================================== *)

Record CallOptions := { maxTokens : option Z }.

Definition noOptions : CallOptions := {| maxTokens := None |}.

Definition callOpenRouter (model prompt : string) (options : CallOptions) : M string :=
  let maxTokens := default 4096 (maxTokens options) in
  let* res :=
    fetch {| reqModel := model; reqMaxTokens := maxTokens; reqPrompt := prompt |} in
  if negb (ok res) then
    let text := bodyText res in
    throw (newError ("OpenRouter error for " +:+ model +:+ ": "
                     +:+ Js.natToString (status res) +:+ " " +:+ statusText res
                     +:+ Js.LF +:+ text))
  else
    let* json := resJson res in
    let message_ := (choices json ≫= head) ≫= message in
    let content_ := message_ ≫= content in
    let content_ :=
      match content_ with
      | Some (ContentParts parts) =>
          Some (Js.join Js.LF (map (fun part => default "" (text part)) parts))
      | Some (ContentString s) => Some s
      | Some (ContentOther _) | None => None
      end in
    match content_ with
    | Some s => ret s
    | None => throw (newError ("Unexpected response shape for " +:+ model))
    end.

(* ================================================================== *)
(** ** Plain objects used as dictionaries *)
(* ================================================================== *)

Module JsObject.

(** The own properties of an object, in the order of their creation. *)
Definition t (V : Type) : Type := list (string * V).

Definition empty {V} : t V := [].

Fixpoint get {V} (o : t V) (k : string) : option V :=
  match o with
  | [] => None
  | (k', v) :: rest => if decide (k = k') then Some v else get rest k
  end.

(** [o[k] = v]: an existing property keeps its place. *)
Fixpoint set {V} (o : t V) (k : string) (v : V) : t V :=
  match o with
  | [] => [(k, v)]
  | (k', v') :: rest =>
      if decide (k = k') then (k', v) :: rest else (k', v') :: set rest k v
  end.

Definition keys {V} (o : t V) : list string := map fst o.

Definition digit (c : ascii) : option N :=
  let n := nat_of_ascii c in
  if ((48 <=? n) && (n <=? 57))%nat then Some (N.of_nat (n - 48)) else None.

Fixpoint digitsValue (acc : N) (s : string) : option N :=
  match s with
  | EmptyString => Some acc
  | String c r =>
      match digit c with
      | Some d => digitsValue (10 * acc + d)%N r
      | None => None
      end
  end.

(** A property name is an array index when it is the canonical decimal
    form of an integer below 2^32 - 1. *)
Definition arrayIndex (k : string) : option N :=
  match k with
  | EmptyString => None
  | String "0"%char EmptyString => Some 0%N
  | String "0"%char _ => None
  | _ =>
      match digitsValue 0 k with
      | Some n => if (n <=? 4294967294)%N then Some n else None
      | None => None
      end
  end.

Fixpoint insertByIndex {V} (n : N) (e : string * V) (sorted : list (N * (string * V)))
  : list (N * (string * V)) :=
  match sorted with
  | [] => [(n, e)]
  | (m, e') :: rest =>
      if (n <? m)%N then (n, e) :: sorted else (m, e') :: insertByIndex n e rest
  end.

Fixpoint indexProperties {V} (o : t V) : list (N * (string * V)) :=
  match o with
  | [] => []
  | (k, v) :: rest =>
      match arrayIndex k with
      | Some n => insertByIndex n (k, v) (indexProperties rest)
      | None => indexProperties rest
      end
  end.

Fixpoint nameProperties {V} (o : t V) : list (string * V) :=
  match o with
  | [] => []
  | (k, v) :: rest =>
      match arrayIndex k with
      | Some _ => nameProperties rest
      | None => (k, v) :: nameProperties rest
      end
  end.

(** [Object.entries(o)]: the array indices in ascending order, then the
    other names in the order of their creation. *)
Definition entries {V} (o : t V) : list (string * V) :=
  map snd (indexProperties o) ++ nameProperties o.

End JsObject.

(* ================================================================== *)
(** ** run-benchmark.ts *)
(* ================================================================== *)

Record SolutionRecord := { model : string; slug : string; html : string }.

(** A [Critique] object literal, with its five properties in order. *)
Definition critiqueRecord
    (solverModel solverSlug judgeModel verdict explanation : string) : JsonValue :=
  JObject [ ("solverModel", JString solverModel);
            ("solverSlug", JString solverSlug);
            ("judgeModel", JString judgeModel);
            ("verdict", JString verdict);
            ("explanation", JString explanation) ].

(** [`${solverModel}|${judgeModel}`] *)
Definition pairKeyOf (solverModel judgeModel : string) : string :=
  solverModel +:+ "|" +:+ judgeModel.

(** [join("solutions", `${slug}.html`)] *)
Definition solutionPath (slug : string) : string :=
  "solutions/" +:+ slug +:+ ".html".

(** The loop of the loader over the parsed array: the pair keys added to
    [donePairs], and the error that ended the loop early, if any. *)
Fixpoint indexDonePairs (critiques : list JsonValue) (donePairs : gset string)
  : gset string * option JsError :=
  match critiques with
  | [] => (donePairs, None)
  | c :: rest =>
      if Json.truthy c
         && Json.truthyProperty (Json.get c "solverModel")
         && Json.truthyProperty (Json.get c "judgeModel")
      then
        match Json.toStringProperty (Json.get c "solverModel"),
              Json.toStringProperty (Json.get c "judgeModel") with
        | Some s, Some j => indexDonePairs rest ({[ pairKeyOf s j ]} ∪ donePairs)
        | _, _ => (donePairs, Some Json.conversionError)
        end
      else indexDonePairs rest donePairs
  end.

(** "Load existing critiques if present (for resume)": the values of
    [critiques] and [donePairs] when the solver phase starts. *)
Definition loadCritiques : M (list JsonValue * gset string) :=
  fun w =>
    match critiquesFile w with
    | NoCritiquesFile => ret ([], ∅) w
    | UnparsableCritiques err =>
        (logWarnToFile (MsgCouldNotParse (errorMessageOr err));;
         ret ([], ∅)) w
    | ParsedCritiques (JArray parsed) =>
        match indexDonePairs parsed ∅ with
        | (donePairs, None) =>
            (logToFile (MsgLoadedCritiques (length parsed));;
             ret (parsed, donePairs)) w
        | (donePairs, Some err) =>
            (logWarnToFile (MsgCouldNotParse (errorMessageOr err));;
             ret ([], donePairs)) w
        end
    | ParsedCritiques _ => ret ([], ∅) w
    end.

Definition Solutions : Type := JsObject.t SolutionRecord.

(** The debug logging of a solver response. *)
Definition logResponseDetails (model_ html_ : string) : M unit :=
  let responseLength := String.length html_ in
  let previewLength := 500%nat in
  let preview := String.substring 0 previewLength html_ in
  logToFile (MsgResponseLength responseLength);;
  if (responseLength =? 0)%nat then
    logErrorToFile (MsgEmptyResponse model_);;
    logToFile (MsgFullResponse html_)
  else if (responseLength <? 100)%nat then
    logWarnToFile (MsgVeryShort responseLength model_);;
    logToFile (MsgFullResponse html_)
  else
    logToFile (MsgPreviewHeader previewLength);;
    logToFile MsgRule;;
    logToFile (MsgPreview preview);;
    (if (previewLength <? responseLength)%nat
     then logToFile (MsgMoreCharacters (responseLength - previewLength))
     else ret tt);;
    logToFile MsgRule.

(** One iteration of the solver loop, for [SOLVER_MODELS[i]]: [continue]
    on an empty identifier, reuse of a stored solution that passes the
    check, and otherwise the call within its [try] block. *)
Definition solverStep (total i : nat) (model_ : string) (solutions : Solutions)
  : M Solutions :=
  if Js.isEmpty model_ then ret solutions
  else
    let slug_ := slugify model_ in
    let outPath := solutionPath slug_ in
    let* present := fileExists outPath in
    let* reusable :=
      if (present : bool) then
        let* html_ := readFile outPath in
        let trimmedHtml := Js.trim html_ in
        if (String.length trimmedHtml =? 0)%nat
           || negb (Js.includes "<html" (Js.toLowerCase trimmedHtml))
        then
          logWarnToFile (MsgExistingInvalid (i + 1) total model_);;
          ret None
        else ret (Some html_)
      else ret None in
    match reusable with
    | Some html_ =>
        let solutions :=
          JsObject.set solutions model_
            {| model := model_; slug := slug_; html := html_ |} in
        logToFile (MsgSkippingSolver (i + 1) total model_ outPath);;
        ret solutions
    | None =>
        logToFile (MsgGenerating (i + 1) total model_ outPath);;
        tryCatch
          (let* html_ :=
             callOpenRouter model_ SOLVER_PROMPT {| maxTokens := Some 12000 |} in
           let hasHtmlTag := Js.includes "<html" (Js.toLowerCase html_) in
           logResponseDetails model_ html_;;
           (if negb hasHtmlTag then logWarnToFile (MsgNoHtmlTag model_) else ret tt);;
           writeFile outPath html_;;
           ret (JsObject.set solutions model_
                  {| model := model_; slug := slug_; html := html_ |}))
          (fun err =>
             logErrorToFile (MsgErrorGenerating model_ err);;
             ret solutions)
    end.

Definition indexed {A} (xs : list A) : list (nat * A) :=
  zip (seq 0 (length xs)) xs.

Definition solverPhase (models : list string) : M Solutions :=
  forEach (indexed models)
    (fun '(i, model_) solutions => solverStep (length models) i model_ solutions)
    JsObject.empty.

(** The variables of [main] that the judge loop updates. *)
Record JudgeState := {
  pairIndex : nat;
  critiques : list JsonValue;
  donePairs : gset string
}.

(** One iteration of the inner judge loop.  In the [try] block only the
    call can throw, before [critiques] and [donePairs] are touched, so the
    handler starts from the variables as they were. *)
Definition judgeStep (totalPairs : nat) (solverModel : string) (solution : SolutionRecord)
    (judgeModel : string) (st : JudgeState) : M JudgeState :=
  let pairKey := pairKeyOf solverModel judgeModel in
  let pairIndex_ := S (pairIndex st) in
  if bool_decide (pairKey ∈ donePairs st) then
    logToFile (MsgSkippingPair pairIndex_ totalPairs pairKey);;
    ret {| pairIndex := pairIndex_; critiques := critiques st; donePairs := donePairs st |}
  else
    logToFile (MsgJudging pairIndex_ totalPairs judgeModel solverModel);;
    tryCatch
      (let judgePrompt := buildJudgePrompt (html solution) in
       let* judgeRaw :=
         callOpenRouter judgeModel judgePrompt {| maxTokens := Some 4000 |} in
       let parsed := parseVerdict judgeRaw in
       let record :=
         critiqueRecord solverModel (slug solution) judgeModel
           (verdict parsed) (explanation parsed) in
       let critiques_ := critiques st ++ [record] in
       writeCritiques critiques_;;
       ret {| pairIndex := pairIndex_; critiques := critiques_;
              donePairs := {[ pairKey ]} ∪ donePairs st |})
      (fun err =>
         logErrorToFile (MsgErrorJudging solverModel judgeModel err);;
         let record :=
           critiqueRecord solverModel (slug solution) judgeModel
             "ERROR" (errorToString err) in
         let critiques_ := critiques st ++ [record] in
         writeCritiques critiques_;;
         ret {| pairIndex := pairIndex_; critiques := critiques_;
                donePairs := {[ pairKey ]} ∪ donePairs st |}).

Definition judgePhase (judges : list string)
    (solverEntries : list (string * SolutionRecord)) (st : JudgeState) : M JudgeState :=
  let totalPairs := (length solverEntries * length judges)%nat in
  forEach solverEntries
    (fun '(solverModel, solution) st =>
       forEach judges (judgeStep totalPairs solverModel solution) st)
    st.

(** The variables of [main] when it returns. *)
Record MainLocals := {
  loadedCritiques : list JsonValue;
  loadedPairs : gset string;
  solutions : Solutions;
  judged : JudgeState
}.

(** [main], for given model lists.  The directories, the run's log file
    under [logs/] and [data/meta.json] are written and never read back;
    they are left out. *)
Definition mainWith (solverModels judgeModels : list string) : M MainLocals :=
  let* (critiques0, donePairs0) := loadCritiques in
  logToFile MsgSolverPhase;;
  let* solutions_ := solverPhase solverModels in
  logToFile MsgJudgePhase;;
  let solverEntries := JsObject.entries solutions_ in
  let* st :=
    judgePhase judgeModels solverEntries
      {| pairIndex := 0; critiques := critiques0; donePairs := donePairs0 |} in
  logToFile (MsgDone (length (critiques st)));;
  ret {| loadedCritiques := critiques0; loadedPairs := donePairs0;
         solutions := solutions_; judged := st |}.

Definition main : M MainLocals := mainWith SOLVER_MODELS JUDGE_MODELS.

(** A process starts with nothing sent and nothing logged. *)
Record Environment := {
  envFiles : gmap string string;
  envCritiques : CritiquesFile;
  envNetwork : nat -> FetchOutcome
}.

Definition boot (env : Environment) : World :=
  {| files := envFiles env; critiquesFile := envCritiques env;
     network := envNetwork env; requests := []; console := [] |}.

(* ================================================================== *)
(** ** Vocabulary of the statements *)
(* ================================================================== *)

(** [json.choices?.[0]?.message?.content] *)
Definition firstContent (json : OpenRouterChatResponse) : option MessageContent :=
  ((choices json ≫= head) ≫= message) ≫= content.

(** The request [callOpenRouter] sends. *)
Definition requestOf (model_ prompt : string) (options : CallOptions) : Request :=
  {| reqModel := model_; reqMaxTokens := default 4096 (maxTokens options);
     reqPrompt := prompt |}.

(** A line cut by the source's separator is the line cut at the line feed,
    less one carriage return at its end. *)
Definition sameLine (a b : string) : Prop :=
  a = b \/ b = a +:+ String "013" "".

Fixpoint occurs (c : ascii) (s : string) : Prop :=
  match s with
  | EmptyString => False
  | String d r => c = d \/ occurs c r
  end.

(** The world after some more lines have been logged, and after one more
    request has been sent. *)
Definition logged (w : World) (msgs : list LogMessage) : World :=
  {| files := files w; critiquesFile := critiquesFile w; network := network w;
     requests := requests w; console := console w ++ msgs |}.

Definition sent (w : World) (req : Request) : World :=
  {| files := files w; critiquesFile := critiquesFile w; network := network w;
     requests := requests w ++ [req]; console := console w |}.

(** What the log says about the solver loop: the models it came to, those
    it asked for a solution, and those whose call failed. *)
Definition visitedSolver (msg : LogMessage) : option string :=
  match msg with
  | MsgSkippingSolver _ _ m _ | MsgGenerating _ _ m _ => Some m
  | _ => None
  end.

Definition generatingSolver (msg : LogMessage) : option string :=
  match msg with
  | MsgGenerating _ _ m _ => Some m
  | _ => None
  end.

Definition failedSolver (msg : LogMessage) : option string :=
  match msg with
  | MsgErrorGenerating m _ => Some m
  | _ => None
  end.

(** What the log says about the judge loop: the key of every pair it came
    to, the pairs it asked a judgment for, and the judgments that failed. *)
Definition loggedPairKey (msg : LogMessage) : option string :=
  match msg with
  | MsgSkippingPair _ _ k => Some k
  | MsgJudging _ _ j s => Some (pairKeyOf s j)
  | _ => None
  end.

Definition judgedPair (msg : LogMessage) : option (string * string) :=
  match msg with
  | MsgJudging _ _ j s => Some (s, j)
  | _ => None
  end.

Definition failedJudgment (msg : LogMessage) : option (string * string * JsError) :=
  match msg with
  | MsgErrorJudging s j err => Some (s, j, err)
  | _ => None
  end.

Definition isWarning (msg : LogMessage) : bool :=
  match msg with
  | MsgCouldNotParse _ | MsgExistingInvalid _ _ _ | MsgVeryShort _ _
  | MsgNoHtmlTag _ => true
  | _ => false
  end.

(** The five strings of a [Critique] written by the judge loop. *)
Record CritiqueFields := {
  cfSolver : string;
  cfSlug : string;
  cfJudge : string;
  cfVerdict : string;
  cfExplanation : string
}.

Definition critiqueJson (c : CritiqueFields) : JsonValue :=
  critiqueRecord (cfSolver c) (cfSlug c) (cfJudge c) (cfVerdict c) (cfExplanation c).

Definition critiqueKey (c : CritiqueFields) : string :=
  pairKeyOf (cfSolver c) (cfJudge c).

(** The property [k] of a value, when it is a string. *)
Definition stringField (c : JsonValue) (k : string) : option string :=
  match Json.get c k with
  | Some (JString s) => Some s
  | _ => None
  end.


(** The pairs of the judge loop: solvers outside, judges inside. *)
Definition crossProduct {A} (solverEntries : list (string * A)) (judges : list string)
  : list (string * A * string) :=
  flat_map (fun e => map (fun j => (e.1, e.2, j)) judges) solverEntries.

Definition tripleKey {A} (t : string * A * string) : string :=
  pairKeyOf t.1.1 t.2.

(** A model identifier is well formed when it is not empty, holds no '|',
    and is not an array index. *)
Fixpoint occursb (c : ascii) (s : string) : bool :=
  match s with
  | EmptyString => false
  | String d r => bool_decide (c = d) || occursb c r
  end.

Definition wellFormedId (m : string) : bool :=
  negb (Js.isEmpty m) && negb (occursb "|" m)
  && bool_decide (JsObject.arrayIndex m = None).

Definition judgeRequest (sol : SolutionRecord) (j : string) : Request :=
  requestOf j (buildJudgePrompt (html sol)) {| maxTokens := Some 4000 |}.

(** What holds of the judge loop after the pairs [done], started in state
    [st0] and world [w0]: [recs] are the Critiques appended so far, [reqs]
    the requests sent so far and [msgs] the lines logged so far. *)
Definition JudgeSummary (st0 : JudgeState) (w0 : World)
    (done : list (string * SolutionRecord * string))
    (st : JudgeState) (w : World) : Prop :=
  files w = files w0 /\ network w = network w0 /\
  pairIndex st = (pairIndex st0 + length done)%nat /\
  exists (recs : list CritiqueFields) (reqs : list Request) (msgs : list LogMessage),
    console w = console w0 ++ msgs /\
    critiques st = critiques st0 ++ map critiqueJson recs /\
    donePairs st = list_to_set (map critiqueKey recs) ∪ donePairs st0 /\
    requests w = requests w0 ++ reqs /\
    map reqModel reqs = map cfJudge recs /\
    omap loggedPairKey msgs = map tripleKey done /\
    omap judgedPair msgs = map (fun c => (cfSolver c, cfJudge c)) recs /\
    NoDup (map critiqueKey recs) /\
    Forall (fun c => (critiqueKey c ∉ donePairs st0) /\
                     (exists sol, (cfSolver c, sol, cfJudge c) ∈ done
                                  /\ cfSlug c = slug sol)) recs /\
    Forall (fun t => tripleKey t ∈ donePairs st) done /\
    Forall (fun f => exists sl,
              {| cfSolver := f.1.1; cfSlug := sl; cfJudge := f.1.2;
                 cfVerdict := "ERROR"; cfExplanation := errorToString f.2 |} ∈ recs)
           (omap failedJudgment msgs) /\
    omap visitedSolver msgs = [] /\ omap failedSolver msgs = [] /\
    omap generatingSolver msgs = [] /\
    Forall (fun m => isWarning m = false) msgs /\
    critiquesFile w = match recs with
                      | [] => critiquesFile w0
                      | _ => ParsedCritiques (JArray (critiques st))
                      end.

(** The lines about one solver response and one solution file, which name
    no iteration of either loop. *)
Definition isDetail (msg : LogMessage) : bool :=
  match msg with
  | MsgResponseLength _ | MsgEmptyResponse _ | MsgFullResponse _ | MsgVeryShort _ _
  | MsgPreviewHeader _ | MsgRule | MsgPreview _ | MsgMoreCharacters _
  | MsgNoHtmlTag _ | MsgExistingInvalid _ _ _ => true
  | _ => false
  end.

(** The solution file of a model, when the solver loop accepts it in place
    of a call. *)
Definition reusableSolution (w : World) (m : string) : option string :=
  match files w !! solutionPath (slugify m) with
  | Some html_ =>
      if (String.length (Js.trim html_) =? 0)%nat
         || negb (Js.includes "<html" (Js.toLowerCase (Js.trim html_)))
      then None else Some html_
  | None => None
  end.

Definition solverRequest (m : string) : Request :=
  requestOf m SOLVER_PROMPT {| maxTokens := Some 12000 |}.

Definition solutionOf (m html_ : string) : SolutionRecord :=
  {| model := m; slug := slugify m; html := html_ |}.

(** What holds of the solver loop after the models [done], started with no
    solution in world [w0]. *)
Definition SolverSummary (w0 : World) (done : list string)
    (sols : Solutions) (w : World) : Prop :=
  critiquesFile w = critiquesFile w0 /\ network w = network w0 /\
  exists (reqs : list Request) (msgs : list LogMessage),
    console w = console w0 ++ msgs /\
    requests w = requests w0 ++ reqs /\
    map reqModel reqs = omap generatingSolver msgs /\
    omap visitedSolver msgs = filter (fun m => m ≠ "") done /\
    JsObject.keys sols
      = filter (fun m => m ≠ "" /\ m ∉ omap failedSolver msgs) done /\
    Forall (fun m => m ∈ done) (omap failedSolver msgs) /\
    Forall (fun e => e.2 = solutionOf e.1 (html e.2)) sols /\
    omap loggedPairKey msgs = [] /\ omap judgedPair msgs = [] /\
    omap failedJudgment msgs = [].

(** What holds when [mainWith] returns [locals] in world [w], started in
    the environment [env]: [recs] are the Critiques the run appended. *)
Definition RunSummary (solvers judges : list string) (env : Environment)
    (locals : MainLocals) (w : World) : Prop :=
  let pairs := crossProduct (JsObject.entries (solutions locals)) judges in
  exists (recs : list CritiqueFields) (loadMsgs : list LogMessage),
    loadCritiques (boot env)
    = (Returned (loadedCritiques locals, loadedPairs locals),
       logged (boot env) loadMsgs) /\
    critiques (judged locals) = loadedCritiques locals ++ map critiqueJson recs /\
    pairIndex (judged locals) = length pairs /\
    JsObject.keys (solutions locals)
      = filter (fun m => m ≠ "" /\ m ∉ omap failedSolver (console w)) solvers /\
    omap visitedSolver (console w) = filter (fun m => m ≠ "") solvers /\
    Forall (fun e => e.2 = solutionOf e.1 (html e.2)) (solutions locals) /\
    Forall (fun m => m ∈ solvers) (omap failedSolver (console w)) /\
    omap loggedPairKey (console w) = map tripleKey pairs /\
    omap judgedPair (console w) = map (fun c => (cfSolver c, cfJudge c)) recs /\
    NoDup (map critiqueKey recs) /\
    Forall (fun c => (critiqueKey c ∉ loadedPairs locals) /\
                     (exists sol, (cfSolver c, sol, cfJudge c) ∈ pairs
                                  /\ cfSlug c = slug sol)) recs /\
    Forall (fun f => exists sl,
              {| cfSolver := f.1.1; cfSlug := sl; cfJudge := f.1.2;
                 cfVerdict := "ERROR"; cfExplanation := errorToString f.2 |} ∈ recs)
           (omap failedJudgment (console w)) /\
    map reqModel (requests w)
      = omap generatingSolver (console w) ++ map cfJudge recs /\
    critiquesFile w = match recs with
                      | [] => envCritiques env
                      | _ => ParsedCritiques (JArray (critiques (judged locals)))
                      end.


(** The Critiques a run appended to the collection it loaded. *)
Definition appendedCritiques (locals : MainLocals) : list JsonValue :=
  drop (length (loadedCritiques locals)) (critiques (judged locals)).

(** A text contains the marker up to letter case when one of its segments
    turns into the marker by lowering its letters. *)
Definition containsIgnoringCase (marker s : string) : Prop :=
  exists before mid after,
    s = before +:+ mid +:+ after /\ Js.toLowerCase mid = marker.

(** The Solution of a model is present in a world: a file at the path of
    its slug, not empty after trimming, containing the marker. *)
Definition solutionPresent (w : World) (m : string) : Prop :=
  exists text_,
    files w !! solutionPath (slugify m) = Some text_
    /\ Js.trim text_ ≠ ""
    /\ containsIgnoringCase "<html" (Js.trim text_).





#[global] Instance JsError_eq_dec : EqDecision JsError.
Proof. solve_decision. Defined.

(* ================================================================== *)
(** ** Example environments *)
(* ================================================================== *)

Module Scenario.

(** A capability that answers every request with status 503. *)
Definition overloaded : FetchOutcome :=
  FetchResolved
    {| status := 503; statusText := "Service Unavailable"; bodyText := "overloaded";
       bodyJson := inl {| errName := "SyntaxError";
                          errMessage := "Unexpected token o in JSON" |} |}.


(** A capability answer with status 200 and the given text as content. *)
Definition answer (text_ : string) : FetchOutcome :=
  FetchResolved
    {| status := 200; statusText := "OK"; bodyText := "";
       bodyJson :=
         inr {| choices :=
                  Some [ {| message := Some {| content := Some (ContentString text_) |} |} ] |} |}.

(** The first request is answered with a text without the marker, the
    following ones fail. *)
Definition answersOnce : Environment :=
  {| envFiles := ∅; envCritiques := NoCritiquesFile;
     envNetwork := fun n => match n with
                            | O => answer "plain text"
                            | S _ => overloaded
                            end |}.

(** Every request is answered with a document. *)
Definition answersAll : Environment :=
  {| envFiles := ∅; envCritiques := NoCritiquesFile;
     envNetwork := fun _ => answer "<html></html>" |}.

Definition solver : string := "openai/gpt-5.1".
Definition judge : string := "x-ai/grok-4".
Definition failedModel : string := "anthropic/claude-opus-4.1".

Definition storedSolution : string :=
  "<!DOCTYPE html><HTML><body>schedule</body></HTML>".

Definition priorCritique : JsonValue :=
  critiqueRecord solver (slugify solver) judge "YES" "All constraints hold.".

(** A restart: one solution and one critique are on disk, and the
    capability is overloaded. *)
Definition resumed : Environment :=
  {| envFiles := {[ solutionPath (slugify solver) := storedSolution ]};
     envCritiques := ParsedCritiques (JArray [priorCritique]);
     envNetwork := fun _ => overloaded |}.

(** A critique file holding an array with one record that has two of the
    five properties. *)
Definition partialRecord : JsonValue :=
  JObject [("solverModel", JString solver); ("judgeModel", JString judge)].

Definition partialFile : Environment :=
  {| envFiles := ∅;
     envCritiques := ParsedCritiques (JArray [partialRecord]);
     envNetwork := fun _ => overloaded |}.

(** A response whose content is three fragments, the second without text. *)
Definition fragments : list ContentPart :=
  [ {| text := Some "YES" |}; {| text := None |}; {| text := Some "fine" |} ].

Definition fragmentResponse : Response :=
  {| status := 200; statusText := "OK"; bodyText := "";
     bodyJson :=
       inr {| choices :=
                Some [ {| message := Some {| content := Some (ContentParts fragments) |} |} ] |} |}.

Definition fragmentWorld : World :=
  boot {| envFiles := ∅; envCritiques := NoCritiquesFile;
          envNetwork := fun _ => FetchResolved fragmentResponse |}.

End Scenario.

(** Membership in a concrete list, by evaluation. *)
Ltac by_computation := apply (bool_decide_unpack _); vm_compute; exact I.

(* ================================================================== *)
(** ** Vocabulary of the further properties *)
(* ================================================================== *)

(** The substitution point of the judge template, and the template text
    before and after its first occurrence. *)
Definition judgePlaceholder : string := "{{SOLUTION_HTML_HERE}}".

Fixpoint beforeFirst (pattern s : string) : string :=
  if Js.startsWith pattern s then ""
  else match s with
       | EmptyString => ""
       | String c r => String c (beforeFirst pattern r)
       end.

Fixpoint afterFirst (pattern s : string) : string :=
  if Js.startsWith pattern s then JsReplace.dropChars (String.length pattern) s
  else match s with
       | EmptyString => ""
       | String _ r => afterFirst pattern r
       end.

Definition judgePromptPrefix : string :=
  beforeFirst judgePlaceholder JUDGE_PROMPT_TEMPLATE.

Definition judgePromptSuffix : string :=
  afterFirst judgePlaceholder JUDGE_PROMPT_TEMPLATE.

(** A text of white space only. *)
Fixpoint allWhite (s : string) : bool :=
  match s with
  | EmptyString => true
  | String c r => Js.isWhiteSpace c && allWhite r
  end.

(** What holds of the solver loop about files and requests after the
    models [done], started in world [w0]: the file of a model whose slug
    differs from the slugs of the models done is as it was, and the
    requests sent are those for the models done that had no reusable
    solution at the start. *)
Definition SolverCalls (w0 : World) (done : list string) (w : World) : Prop :=
  (forall m, Forall (fun x => slugify x ≠ slugify m) done ->
             files w !! solutionPath (slugify m) = files w0 !! solutionPath (slugify m))
  /\ exists msgs,
       console w = console w0 ++ msgs
       /\ requests w = requests w0 ++ map solverRequest (omap generatingSolver msgs)
       /\ omap generatingSolver msgs
          = filter (fun m => m ≠ "" /\ reusableSolution w0 m = None) done.

(** What holds of the judge loop about requests after the pairs [done]. *)
Definition JudgeCalls (st0 : JudgeState) (w0 : World)
    (done : list (string * SolutionRecord * string)) (w : World) : Prop :=
  exists reqs,
    requests w = requests w0 ++ reqs
    /\ Forall (fun r => exists t, t ∈ done /\ r = judgeRequest t.1.2 t.2) reqs.

(* ================================================================== *)
(** ** run-benchmark.ts: the earlier version of the script *)
(* ================================================================== *)

(** The file holds an earlier [main] before the current one.  It prints
    with [console.log], [console.warn] and [console.error]; a line is
    recorded in [console] by the constructor of the line of the current
    version that interpolates the same values (the warning about a missing
    <html tag is worded differently there, and the warning about the
    critique file passes [err.message || err] as a second argument).  It
    has one model list, [MODELS], calls [callOpenRouter] without options,
    and takes a solution file as it is whenever one exists.  As for the
    current version, the directories and [data/meta.json] are left out. *)
Definition consoleLog (msg : LogMessage) : M unit :=
  fun w => (Returned tt, logged w [msg]).

Definition consoleWarn : LogMessage -> M unit := consoleLog.

Definition consoleError : LogMessage -> M unit := consoleLog.

Definition legacyLoadCritiques : M (list JsonValue * gset string) :=
  fun w =>
    match critiquesFile w with
    | NoCritiquesFile => ret ([], ∅) w
    | UnparsableCritiques err =>
        (consoleWarn (MsgCouldNotParse (errorMessageOr err));;
         ret ([], ∅)) w
    | ParsedCritiques (JArray parsed) =>
        match indexDonePairs parsed ∅ with
        | (donePairs, None) =>
            (consoleLog (MsgLoadedCritiques (length parsed));;
             ret (parsed, donePairs)) w
        | (donePairs, Some err) =>
            (consoleWarn (MsgCouldNotParse (errorMessageOr err));;
             ret ([], donePairs)) w
        end
    | ParsedCritiques _ => ret ([], ∅) w
    end.

(** One iteration of the earlier solver loop, for [MODELS[i]]. *)
Definition legacySolverStep (total i : nat) (model_ : string) (solutions : Solutions)
  : M Solutions :=
  if Js.isEmpty model_ then ret solutions
  else
    let slug_ := slugify model_ in
    let outPath := solutionPath slug_ in
    let* present := fileExists outPath in
    if (present : bool) then
      let* html_ := readFile outPath in
      let solutions :=
        JsObject.set solutions model_
          {| model := model_; slug := slug_; html := html_ |} in
      consoleLog (MsgSkippingSolver (i + 1) total model_ outPath);;
      ret solutions
    else
      consoleLog (MsgGenerating (i + 1) total model_ outPath);;
      tryCatch
        (let* html_ := callOpenRouter model_ SOLVER_PROMPT noOptions in
         (if negb (Js.includes "<html" (Js.toLowerCase html_))
          then consoleWarn (MsgNoHtmlTag model_) else ret tt);;
         writeFile outPath html_;;
         ret (JsObject.set solutions model_
                {| model := model_; slug := slug_; html := html_ |}))
        (fun err =>
           consoleError (MsgErrorGenerating model_ err);;
           ret solutions).

Definition legacySolverPhase (models : list string) : M Solutions :=
  forEach (indexed models)
    (fun '(i, model_) solutions => legacySolverStep (length models) i model_ solutions)
    JsObject.empty.

(** One iteration of the earlier inner judge loop. *)
Definition legacyJudgeStep (totalPairs : nat) (solverModel : string)
    (solution : SolutionRecord) (judgeModel : string) (st : JudgeState) : M JudgeState :=
  let pairKey := pairKeyOf solverModel judgeModel in
  let pairIndex_ := S (pairIndex st) in
  if bool_decide (pairKey ∈ donePairs st) then
    consoleLog (MsgSkippingPair pairIndex_ totalPairs pairKey);;
    ret {| pairIndex := pairIndex_; critiques := critiques st; donePairs := donePairs st |}
  else
    consoleLog (MsgJudging pairIndex_ totalPairs judgeModel solverModel);;
    tryCatch
      (let judgePrompt := buildJudgePrompt (html solution) in
       let* judgeRaw := callOpenRouter judgeModel judgePrompt noOptions in
       let parsed := parseVerdict judgeRaw in
       let record :=
         critiqueRecord solverModel (slug solution) judgeModel
           (verdict parsed) (explanation parsed) in
       let critiques_ := critiques st ++ [record] in
       writeCritiques critiques_;;
       ret {| pairIndex := pairIndex_; critiques := critiques_;
              donePairs := {[ pairKey ]} ∪ donePairs st |})
      (fun err =>
         consoleError (MsgErrorJudging solverModel judgeModel err);;
         let record :=
           critiqueRecord solverModel (slug solution) judgeModel
             "ERROR" (errorToString err) in
         let critiques_ := critiques st ++ [record] in
         writeCritiques critiques_;;
         ret {| pairIndex := pairIndex_; critiques := critiques_;
                donePairs := {[ pairKey ]} ∪ donePairs st |}).

Definition legacyJudgePhase (judges : list string)
    (solverEntries : list (string * SolutionRecord)) (st : JudgeState) : M JudgeState :=
  let totalPairs := (length solverEntries * length judges)%nat in
  forEach solverEntries
    (fun '(solverModel, solution) st =>
       forEach judges (legacyJudgeStep totalPairs solverModel solution) st)
    st.

Definition legacyMain : M MainLocals :=
  let* (critiques0, donePairs0) := legacyLoadCritiques in
  consoleLog MsgSolverPhase;;
  let* solutions_ := legacySolverPhase MODELS in
  consoleLog MsgJudgePhase;;
  let solverEntries := JsObject.entries solutions_ in
  let* st :=
    legacyJudgePhase MODELS solverEntries
      {| pairIndex := 0; critiques := critiques0; donePairs := donePairs0 |} in
  consoleLog (MsgDone (length (critiques st)));;
  ret {| loadedCritiques := critiques0; loadedPairs := donePairs0;
         solutions := solutions_; judged := st |}.

(** The lines about a solver response, which only the current version
    writes. *)
Definition isDebugLine (msg : LogMessage) : bool :=
  match msg with
  | MsgResponseLength _ | MsgEmptyResponse _ | MsgFullResponse _ | MsgVeryShort _ _
  | MsgPreviewHeader _ | MsgRule | MsgPreview _ | MsgMoreCharacters _ => true
  | _ => false
  end.

Definition defaultBudget (r : Request) : Request :=
  {| reqModel := reqModel r; reqMaxTokens := 4096; reqPrompt := reqPrompt r |}.

(** A world of the current version as the earlier version would have left
    it: the same files, the requests with the default token budget, the
    log without the lines about solver responses. *)
Definition legacyView (w : World) : World :=
  {| files := files w; critiquesFile := critiquesFile w; network := network w;
     requests := map defaultBudget (requests w);
     console := filter (fun msg => isDebugLine msg = false) (console w) |}.

(** Every solution file of a configured model passes the check of the
    current solver loop. *)
Definition storedSolutionsValid (env : Environment) : Prop :=
  Forall (fun m => envFiles env !! solutionPath (slugify m) = None
                   \/ is_Some (reusableSolution (boot env) m)) MODELS.

(** The environment of a process started on the critique file a run left,
    with given solution files and answers of the capability. *)
Definition nextRun (env : Environment) (files_ : gmap string string)
    (network_ : nat -> FetchOutcome) : Environment :=
  {| envFiles := files_;
     envCritiques := critiquesFile (main (boot env)).2;
     envNetwork := network_ |}.

Module FurtherScenario.

(** The response with status 503. *)
Definition overloadedResponse : Response :=
  {| status := 503; statusText := "Service Unavailable"; bodyText := "overloaded";
     bodyJson := inl {| errName := "SyntaxError";
                        errMessage := "Unexpected token o in JSON" |} |}.

(** Every request is answered with two spaces. *)
Definition answersBlank : Environment :=
  {| envFiles := ∅; envCritiques := NoCritiquesFile;
     envNetwork := fun _ => Scenario.answer "  " |}.

(** The solution file of one model holds white space only. *)
Definition blankStored : Environment :=
  {| envFiles := {[ solutionPath (slugify Scenario.solver) := "   " ]};
     envCritiques := NoCritiquesFile;
     envNetwork := fun _ => Scenario.answer "<html></html>" |}.

Definition start : JudgeState :=
  {| pairIndex := 0; critiques := []; donePairs := ∅ |}.

Definition heldSolution : SolutionRecord :=
  solutionOf Scenario.solver Scenario.storedSolution.

(** A verdict text after a blank line. *)
Definition blankLines : string := " " +:+ Js.LF +:+ Js.LF.

Definition reply : string := "NO" +:+ Js.LF +:+ "Two meetings overlap.".

End FurtherScenario.
(* ================================================================== *)
(** ** Properties of the string primitives *)
(* ================================================================== *)

Section StringFacts.
Import Js.

Lemma mapChars_app f a b : mapChars f (a +:+ b) = mapChars f a +:+ mapChars f b.
Proof. induction a as [|c a IH]; simpl; [done | by rewrite IH]. Qed.

Lemma mapChars_length f s : String.length (mapChars f s) = String.length s.
Proof. induction s as [|c s IH]; simpl; [done | by rewrite IH]. Qed.

Lemma string_app_nil_r s : s +:+ "" = s.
Proof. induction s as [|c s IH]; simpl; [done | by rewrite IH]. Qed.

Lemma string_app_assoc a b c : (a +:+ b) +:+ c = a +:+ b +:+ c.
Proof. induction a as [|x a IH]; simpl; [done | by rewrite IH]. Qed.

Lemma string_app_length a b :
  String.length (a +:+ b) = (String.length a + String.length b)%nat.
Proof. induction a as [|x a IH]; simpl; [done | by rewrite IH]. Qed.

Lemma trimEnd_app_space (c : ascii) s :
  isWhiteSpace c = true -> trimEnd (s +:+ String c "") = trimEnd s.
Proof.
  intros Hc. induction s as [|x s IH]; simpl.
  - by rewrite Hc.
  - by rewrite IH.
Qed.

Lemma trim_app_space (c : ascii) s :
  isWhiteSpace c = true -> trim (s +:+ String c "") = trim s.
Proof.
  intros Hc. unfold trim. induction s as [|x s IH]; simpl.
  - by rewrite Hc.
  - destruct (isWhiteSpace x); [exact IH|].
    change (String x (s +:+ String c "")) with (String x s +:+ String c "").
    by apply trimEnd_app_space.
Qed.

Lemma isEmpty_length s : (0 <? String.length s)%nat = negb (isEmpty s).
Proof. by destruct s. Qed.

Lemma isEmpty_true s : isEmpty s = true <-> s = "".
Proof. by destruct s. Qed.

Lemma splitLines_nonempty s : splitLines s <> [].
Proof.
  destruct s as [|c r]; [done|]. simpl.
  destruct (splitLines r) as [|l ls];
    destruct c as [[] [] [] [] [] [] [] []]; try done;
    destruct r as [|[[] [] [] [] [] [] [] []] r']; done.
Qed.

End StringFacts.


(* ================================================================== *)
(** ** The Verdict Parser against its reference definition *)
(* ================================================================== *)

Section VerdictParser.
Import Js VerdictReference.

Lemma splitLines_splitOnLineFeed_bounded (n : nat) : forall s,
  (String.length s <= n)%nat ->
  Forall2 sameLine (splitLines s) (splitOnLineFeed s).
Proof.
  induction n as [|n IH]; intros s Hn.
  - destruct s; [|simpl in Hn; lia]. repeat constructor.
  - destruct s as [|c r]; [repeat constructor|].
    simpl in Hn.
    assert (Hr : Forall2 sameLine (splitLines r) (splitOnLineFeed r))
      by (apply IH; lia).
    assert (Hcons : Forall2 sameLine
              match splitLines r with l :: ls => String c l :: ls | [] => [String c ""] end
              match splitOnLineFeed r with l :: ls => String c l :: ls | [] => [String c ""] end).
    { inversion Hr as [|a b la lb Hab Hrest Ha Hb]; [repeat constructor|].
      constructor; [|done].
      destruct Hab as [-> | ->]; [by left | by right]. }
    cbn [splitLines splitOnLineFeed].
    destruct (ascii_dec c "010") as [-> |Hlf].
    + constructor; [by left | done].
    + destruct (ascii_dec c "013") as [-> |Hcr].
      * destruct r as [|d r']; [exact Hcons|].
        destruct (ascii_dec d "010") as [-> |Hd].
        -- cbn [splitOnLineFeed].
           destruct (ascii_dec "010" "010") as [_|]; [|done].
           constructor; [by right|]. apply IH. simpl in Hn. lia.
        -- replace (match d with
                    | "010"%char => "" :: splitLines r'
                    | _ => match splitLines (String d r') with
                           | l :: ls => String "013" l :: ls
                           | [] => [String "013" ""]
                           end
                    end)
             with (match splitLines (String d r') with
                   | l :: ls => String "013" l :: ls
                   | [] => [String "013" ""]
                   end); [exact Hcons|].
           destruct d as [[] [] [] [] [] [] [] []]; done.
      * replace (match c with
                 | "010"%char => "" :: splitLines r
                 | "013"%char =>
                     match r with
                     | String "010"%char r' => "" :: splitLines r'
                     | _ => match splitLines r with
                            | l :: ls => String c l :: ls
                            | [] => [String c ""]
                            end
                     end
                 | _ => match splitLines r with
                        | l :: ls => String c l :: ls
                        | [] => [String c ""]
                        end
                 end)
          with (match splitLines r with
                | l :: ls => String c l :: ls
                | [] => [String c ""]
                end); [exact Hcons|].
        destruct c as [[] [] [] [] [] [] [] []]; done.
Qed.

Lemma splitLines_splitOnLineFeed s :
  Forall2 sameLine (splitLines s) (splitOnLineFeed s).
Proof. by apply (splitLines_splitOnLineFeed_bounded (String.length s)). Qed.

Lemma trimmed_lines_agree s :
  map trim (splitLines s) = map trim (splitOnLineFeed s).
Proof.
  induction (splitLines_splitOnLineFeed s) as [|a b la lb Hab _ IH]; [done|].
  simpl. f_equal; [|exact IH].
  destruct Hab as [-> | ->]; [done|]. by rewrite trim_app_space.
Qed.

(** [findIndex], [lines[idx]] and [slice(idx + 1)] against the recursive
    search for the first non-empty line. *)
Lemma findIndexFrom_first (lines : list string) : forall i, 0 <= i ->
  match firstNonEmptyLine lines with
  | None => findIndexFrom i (fun l => (0 <? String.length l)%nat) lines = -1
  | Some (first, rest) =>
      exists k : nat,
        findIndexFrom i (fun l => (0 <? String.length l)%nat) lines = i + Z.of_nat k /\
        lines !! k = Some first /\ drop (S k) lines = rest
  end.
Proof.
  induction lines as [|l lines IH]; intros i Hi; [done|].
  cbn [firstNonEmptyLine findIndexFrom]. rewrite isEmpty_length.
  destruct (isEmpty l); simpl.
  - specialize (IH (i + 1) ltac:(lia)).
    destruct (firstNonEmptyLine lines) as [[first rest]|]; [|done].
    destruct IH as (k & Hk & Hl & Hd). exists (S k). split_and!; [lia|done|done].
  - exists 0%nat. split_and!; [lia|done|done].
Qed.






End VerdictParser.

(** The parser on the inputs the specification lists. *)
Example parseVerdict_yes :
  parseVerdict ("YES" +:+ Js.LF +:+ Js.LF +:+ "looks correct")
  = {| verdict := "YES"; explanation := "looks correct" |}.
Proof. reflexivity. Qed.

Example parseVerdict_no_with_words :
  parseVerdict "no, it double-books team 4" = {| verdict := "NO"; explanation := "" |}.
Proof. reflexivity. Qed.

Example parseVerdict_empty :
  parseVerdict "" = {| verdict := "ERROR"; explanation := "Empty response" |}.
Proof. reflexivity. Qed.

Example parseVerdict_maybe :
  parseVerdict "maybe" = {| verdict := "NO"; explanation := "" |}.
Proof. reflexivity. Qed.


(* ================================================================== *)
(** ** slugify *)
(* ================================================================== *)

(** C10.  [slugify] is a function of the model identifier alone, applying
    it twice gives what applying it once gives, and neither '/' nor ':'
    occurs in a slug. *)
Theorem slugify_idempotent_and_safe (m : string) :
  slugify (slugify m) = slugify m /\
  ~ occurs "/" (slugify m) /\ ~ occurs ":" (slugify m).
Proof.
  unfold slugify. induction m as [|c m (IH1 & IH2 & IH3)]; simpl.
  - tauto.
  - rewrite IH1. split_and!.
    + f_equal. destruct c as [[] [] [] [] [] [] [] []]; reflexivity.
    + intros [H|H]; [|tauto].
      destruct c as [[] [] [] [] [] [] [] []]; discriminate.
    + intros [H|H]; [|tauto].
      destruct c as [[] [] [] [] [] [] [] []]; discriminate.
Qed.

(* ================================================================== *)
(** ** The completion client *)
(* ================================================================== *)

Section CompletionClient.

Lemma callOpenRouter_requests model_ prompt options w :
  requests (callOpenRouter model_ prompt options w).2
  = requests w ++ [requestOf model_ prompt options].
Proof.
  unfold callOpenRouter, bind, fetch, resJson, throw, ret.
  destruct (network w (length (requests w))) as [err|res]; [done|].
  destruct (negb (ok res)); [done|].
  destruct (bodyJson res) as [err|json]; [done|].
  by destruct (match _ ≫= content with Some _ => _ | None => _ end).
Qed.

(** The outcome of a call, by cases on what the network answers. *)
Lemma callOpenRouter_outcome model_ prompt options w :
  (callOpenRouter model_ prompt options w).1 =
  match network w (length (requests w)) with
  | FetchRejected err => Thrown err
  | FetchResolved res =>
      if ok res then
        match bodyJson res with
        | inl err => Thrown err
        | inr json =>
            match firstContent json with
            | Some (ContentString s) => Returned s
            | Some (ContentParts parts) =>
                Returned (Js.join Js.LF (map (fun part => default "" (text part)) parts))
            | Some (ContentOther _) | None =>
                Thrown (newError ("Unexpected response shape for " +:+ model_))
            end
        end
      else
        Thrown (newError ("OpenRouter error for " +:+ model_ +:+ ": "
                          +:+ Js.natToString (status res) +:+ " " +:+ statusText res
                          +:+ Js.LF +:+ bodyText res))
  end.
Proof.
  unfold callOpenRouter, bind, fetch, resJson, throw, ret, firstContent.
  destruct (network w (length (requests w))) as [err|res]; [done|].
  destruct (ok res); simpl; [|done].
  destruct (bodyJson res) as [err|json]; [done|].
  destruct (((choices json ≫= head) ≫= message) ≫= content) as [[s|parts|other]|]; done.
Qed.

(** C7.  A call of the completion client sends exactly one request, whatever
    comes back.  A rejected fetch is the failure of the call; a response
    with a non-success status is a failure whose message carries the status
    and the raw body; with a success status, string content is returned as
    it is, a sequence of fragments is returned joined by line feeds, and
    content of any other shape, or none, is the shape-mismatch failure. *)
Theorem callOpenRouter_contract (model_ prompt : string) (options : CallOptions) (w : World) :
  let result := callOpenRouter model_ prompt options w in
  requests result.2 = requests w ++ [requestOf model_ prompt options] /\
  match network w (length (requests w)) with
  | FetchRejected err => result.1 = Thrown err
  | FetchResolved res =>
      if ok res then
        match bodyJson res with
        | inl err => result.1 = Thrown err
        | inr json =>
            match firstContent json with
            | Some (ContentString s) => result.1 = Returned s
            | Some (ContentParts parts) =>
                result.1 =
                  Returned (Js.join Js.LF (map (fun part => default "" (text part)) parts))
            | Some (ContentOther _) | None =>
                result.1 =
                  Thrown (newError ("Unexpected response shape for " +:+ model_))
            end
        end
      else
        result.1 =
          Thrown (newError ("OpenRouter error for " +:+ model_ +:+ ": "
                            +:+ Js.natToString (status res) +:+ " " +:+ statusText res
                            +:+ Js.LF +:+ bodyText res))
  end.
Proof.
  split; [apply callOpenRouter_requests|].
  cbv zeta. rewrite callOpenRouter_outcome.
  destruct (network w (length (requests w))) as [err|res]; [done|].
  destruct (ok res); [|done].
  destruct (bodyJson res) as [err|json]; [done|].
  by destruct (firstContent json) as [[s|parts|other]|].
Qed.

(** C9.  When the content of the first choice is a sequence of fragments
    the call returns: the text is the fragments joined by line feeds, a
    fragment without a text counting as the empty string, and the empty
    sequence gives the empty string. *)
Theorem callOpenRouter_fragments
    (model_ prompt : string) (options : CallOptions) (w : World)
    (res : Response) (json : OpenRouterChatResponse) (parts : list ContentPart) :
  network w (length (requests w)) = FetchResolved res ->
  ok res = true ->
  bodyJson res = inr json ->
  firstContent json = Some (ContentParts parts) ->
  (callOpenRouter model_ prompt options w).1
  = Returned
      (Js.join Js.LF
         (map (fun part => match text part with Some t => t | None => "" end) parts))
  /\ (parts = [] -> (callOpenRouter model_ prompt options w).1 = Returned "").
Proof.
  intros Hnet Hok Hjson Hcontent.
  assert (H : (callOpenRouter model_ prompt options w).1
              = Returned (Js.join Js.LF (map (fun part => default "" (text part)) parts))).
  { by rewrite callOpenRouter_outcome, Hnet, Hok, Hjson, Hcontent. }
  split.
  - exact H.
  - intros ->. by rewrite H.
Qed.

End CompletionClient.

(* ================================================================== *)
(** ** Running the monad *)
(* ================================================================== *)

#[local] Opaque SOLVER_PROMPT JUDGE_PROMPT_TEMPLATE buildJudgePrompt.

Section Running.

Lemma logged_nil w : logged w [] = w.
Proof. destruct w. unfold logged. simpl. by rewrite app_nil_r. Qed.

Lemma logged_logged w a b : logged (logged w a) b = logged w (a ++ b).
Proof. unfold logged. simpl. by rewrite app_assoc. Qed.

Lemma logToFile_run msg w : logToFile msg w = (Returned (), logged w [msg]).
Proof. done. Qed.

Lemma callOpenRouter_world model_ prompt options w :
  (callOpenRouter model_ prompt options w).2 = sent w (requestOf model_ prompt options).
Proof.
  unfold callOpenRouter, bind, fetch, resJson, throw, ret.
  destruct (network w (length (requests w))) as [err|res]; [done|].
  destruct (negb (ok res)); [done|].
  destruct (bodyJson res) as [err|json]; [done|].
  by destruct (match _ ≫= content with Some _ => _ | None => _ end).
Qed.

Lemma callOpenRouter_logged model_ prompt options w msgs :
  (callOpenRouter model_ prompt options (logged w msgs)).1
  = (callOpenRouter model_ prompt options w).1.
Proof. by rewrite !callOpenRouter_outcome. Qed.

Lemma callOpenRouter_pair model_ prompt options w :
  callOpenRouter model_ prompt options w
  = ((callOpenRouter model_ prompt options w).1, sent w (requestOf model_ prompt options)).
Proof. rewrite <- callOpenRouter_world. apply surjective_pairing. Qed.

Lemma forEach_app {A S} (xs ys : list A) (body : A -> S -> M S) s w :
  forEach (xs ++ ys) body s w = bind (forEach xs body s) (forEach ys body) w.
Proof.
  revert s w. induction xs as [|x xs IH]; intros s w; simpl; [done|].
  unfold bind in *. destruct (body x s w) as [[s'|err] w']; [|done].
  by rewrite IH.
Qed.

Lemma forEach_map {A B S} (f : A -> B) (xs : list A) (body : B -> S -> M S) s w :
  forEach (map f xs) body s w = forEach xs (fun x => body (f x)) s w.
Proof.
  revert s w. induction xs as [|x xs IH]; intros s w; simpl; [done|].
  unfold bind. destruct (body (f x) s w) as [[s'|err] w']; [|done]. apply IH.
Qed.

(** A loop whose body always returns and keeps an invariant of the items
    done so far, returns and establishes the invariant of all items. *)
Lemma forEach_invariant_from {A S} (body : A -> S -> M S)
    (Inv : list A -> S -> World -> Prop) (xs : list A) :
  (forall done x rest s w, xs = done ++ x :: rest -> Inv done s w ->
     exists s' w', body x s w = (Returned s', w') /\ Inv (done ++ [x]) s' w') ->
  forall todo done s w, xs = done ++ todo -> Inv done s w ->
    exists s' w', forEach todo body s w = (Returned s', w') /\ Inv xs s' w'.
Proof.
  intros Hstep. induction todo as [|x todo IH]; intros done s w Hxs HI; simpl.
  - exists s, w. rewrite app_nil_r in Hxs. by subst.
  - destruct (Hstep done x todo s w Hxs HI) as (s1 & w1 & Hx & HI1).
    destruct (IH (done ++ [x]) s1 w1) as (s2 & w2 & Hrest & HI2);
      [by rewrite <- app_assoc|done|].
    exists s2, w2. unfold bind. by rewrite Hx.
Qed.

Lemma forEach_invariant {A S} (body : A -> S -> M S)
    (Inv : list A -> S -> World -> Prop) (xs : list A) s w :
  (forall done x rest s w, xs = done ++ x :: rest -> Inv done s w ->
     exists s' w', body x s w = (Returned s', w') /\ Inv (done ++ [x]) s' w') ->
  Inv [] s w ->
  exists s' w', forEach xs body s w = (Returned s', w') /\ Inv xs s' w'.
Proof. intros Hstep HI. by apply (forEach_invariant_from body Inv xs Hstep xs []). Qed.

End Running.

(* ================================================================== *)
(** ** The judge loop *)
(* ================================================================== *)

Section JudgeLoop.

Lemma judgeStep_skip total s sol j st w :
  pairKeyOf s j ∈ donePairs st ->
  judgeStep total s sol j st w
  = (Returned {| pairIndex := S (pairIndex st); critiques := critiques st;
                 donePairs := donePairs st |},
     logged w [MsgSkippingPair (S (pairIndex st)) total (pairKeyOf s j)]).
Proof. intros H. unfold judgeStep. by rewrite bool_decide_true. Qed.

Lemma judgeStep_judge total s sol j st w :
  pairKeyOf s j ∉ donePairs st ->
  exists v e msgs,
    let record := critiqueRecord s (slug sol) j v e in
    judgeStep total s sol j st w
    = (Returned {| pairIndex := S (pairIndex st);
                   critiques := critiques st ++ [record];
                   donePairs := {[ pairKeyOf s j ]} ∪ donePairs st |},
       {| files := files w;
          critiquesFile := ParsedCritiques (JArray (critiques st ++ [record]));
          network := network w;
          requests := requests w ++ [judgeRequest sol j];
          console := console w ++ MsgJudging (S (pairIndex st)) total j s :: msgs |})
    /\ match (callOpenRouter j (buildJudgePrompt (html sol))
                {| maxTokens := Some 4000 |} w).1 with
       | Returned raw =>
           msgs = [] /\ v = verdict (parseVerdict raw)
           /\ e = explanation (parseVerdict raw)
       | Thrown err =>
           msgs = [MsgErrorJudging s j err] /\ v = "ERROR" /\ e = errorToString err
       end.
Proof.
  intros H. unfold judgeStep. rewrite bool_decide_false by done.
  unfold bind at 1. rewrite logToFile_run.
  unfold tryCatch, bind. rewrite callOpenRouter_pair, callOpenRouter_logged.
  destruct (callOpenRouter j _ _ w).1 as [raw|err].
  - exists (verdict (parseVerdict raw)), (explanation (parseVerdict raw)), [].
    split; [|done]. done.
  - exists "ERROR", (errorToString err), [MsgErrorJudging s j err].
    split; [|done]. simpl. unfold writeCritiques, ret, logged, sent. simpl.
    by rewrite <- app_assoc.
Qed.

Lemma judgeStep_summary total st0 w0 done s sol j st w :
  JudgeSummary st0 w0 done st w ->
  exists st' w',
    judgeStep total s sol j st w = (Returned st', w')
    /\ JudgeSummary st0 w0 (done ++ [(s, sol, j)]) st' w'.
Proof.
  intros (Hf & Hn & Hpi & recs & reqs & msgs & Hc & Hcr & Hdp & Hrq & Hrm & Hlk & Hjp
          & Hnd & Hrecs & Hdone & Hfail & Hvs & Hfs & Hgs & Hwarn & Hcf).
  destruct (decide (pairKeyOf s j ∈ donePairs st)) as [Hin|Hnin].
  - eexists _, _. split; [by apply judgeStep_skip|].
    split_and!; simpl; try done.
    { rewrite length_app. simpl. lia. }
    exists recs, reqs, (msgs ++ [MsgSkippingPair (S (pairIndex st)) total (pairKeyOf s j)]).
    rewrite !omap_app. simpl. rewrite !app_nil_r.
    split_and!; try done.
    + by rewrite Hc, app_assoc.
    + by rewrite Hlk, map_app.
    + eapply Forall_impl; [exact Hrecs|]. intros c (? & sol' & ? & ?).
      split; [done|]. exists sol'. split; [|done]. apply elem_of_app. by left.
    + apply Forall_app. split; [done|]. by constructor.
    + apply Forall_app. split; [done|]. by constructor.
  - destruct (judgeStep_judge total s sol j st w Hnin) as (v & e & extra & Hrun & Hout).
    cbv zeta in Hrun. eexists _, _. split; [exact Hrun|].
    set (c := {| cfSolver := s; cfSlug := slug sol; cfJudge := j;
                 cfVerdict := v; cfExplanation := e |}).
    assert (Hkey : critiqueKey c = pairKeyOf s j) by done.
    assert (Hfresh : (pairKeyOf s j ∉ map critiqueKey recs)
                     /\ (pairKeyOf s j ∉ donePairs st0)).
    { rewrite Hdp in Hnin. split; intros Hk; apply Hnin.
      - apply elem_of_union. left. by apply elem_of_list_to_set.
      - apply elem_of_union. by right. }
    destruct Hfresh as [Hfresh1 Hfresh0].
    split_and!; simpl; try done.
    { rewrite length_app. simpl. lia. }
    exists (recs ++ [c]), (reqs ++ [judgeRequest sol j]),
           (msgs ++ [MsgJudging (S (pairIndex st)) total j s] ++ extra).
    assert (Hextra : omap loggedPairKey extra = [] /\ omap judgedPair extra = []
                     /\ omap visitedSolver extra = [] /\ omap failedSolver extra = []
                     /\ omap generatingSolver extra = []
                     /\ Forall (fun m => isWarning m = false) extra).
    { destruct (callOpenRouter _ _ _ _).1; destruct Hout as (-> & _);
        repeat split; by repeat constructor. }
    destruct Hextra as (E1 & E2 & E3 & E4 & E5 & E6).
    rewrite !omap_app, E1, E2, E3, E4, E5, !map_app. simpl.
    rewrite Hvs, Hfs, Hgs.
    split_and!; try done.
    + by rewrite Hc, app_assoc.
    + rewrite Hcr, <- app_assoc. done.
    + rewrite list_to_set_app_L, Hdp. simpl. rewrite Hkey. set_solver.
    + by rewrite Hrq, app_assoc.
    + by rewrite Hrm.
    + by rewrite Hlk.
    + by rewrite Hjp.
    + apply NoDup_app. split_and!; [done| |apply NoDup_singleton].
      intros k Hk Hk'. apply list_elem_of_singleton in Hk'. subst k.
      by rewrite Hkey in Hk.
    + apply Forall_app. split.
      * eapply Forall_impl; [exact Hrecs|]. intros c' (? & sol' & ? & ?).
        split; [done|]. exists sol'. split; [|done]. apply elem_of_app. by left.
      * constructor; [|done]. split; [by rewrite Hkey|].
        exists sol. split; [|done]. apply elem_of_app. right. by constructor.
    + apply Forall_app. split.
      * eapply Forall_impl; [exact Hdone|]. intros t Ht. simpl. set_solver.
      * constructor; [|done]. unfold tripleKey. simpl. set_solver.
    + apply Forall_app. split.
      * eapply Forall_impl; [exact Hfail|]. intros f [sl Hsl]. exists sl.
        apply elem_of_app. by left.
      * destruct (callOpenRouter _ _ _ _).1 as [raw|err];
          destruct Hout as (-> & Hv & He); simpl; [done|].
        constructor; [|done]. exists (slug sol). apply elem_of_app. right.
        subst v e. by constructor.
    + apply Forall_app. split; [done|]. by constructor.
    + destruct (recs ++ [c]) eqn:E; [by destruct recs|].
      by rewrite Hcr, <- app_assoc.
Qed.

Lemma judgePhase_unfolded judges entries st w :
  judgePhase judges entries st w
  = forEach (crossProduct entries judges)
      (fun t => judgeStep (length entries * length judges) t.1.1 t.1.2 t.2) st w.
Proof.
  unfold judgePhase, crossProduct.
  generalize (length entries * length judges)%nat as total. intros total.
  revert st w. induction entries as [|[s sol] entries IH]; intros st w; [done|].
  cbn [flat_map forEach]. rewrite forEach_app. unfold bind.
  rewrite forEach_map. simpl.
  destruct (forEach judges _ st w) as [[st'|err] w']; [|done].
  apply IH.
Qed.

Lemma judgePhase_summary judges entries st w :
  exists st' w',
    judgePhase judges entries st w = (Returned st', w')
    /\ JudgeSummary st w (crossProduct entries judges) st' w'.
Proof.
  rewrite judgePhase_unfolded.
  apply (forEach_invariant _ (JudgeSummary st w)).
  - intros done [[s sol] j] rest st1 w1 _ H. by apply judgeStep_summary.
  - split_and!; [done|done|simpl; lia|].
    exists [], [], []. simpl. rewrite !app_nil_r.
    split_and!; try done; [by rewrite (left_id_L ∅ (∪))|by constructor..].
Qed.

End JudgeLoop.

(* ================================================================== *)
(** ** The solver loop *)
(* ================================================================== *)

Section SolverLoop.

Lemma detail_projections msgs :
  Forall (fun m => isDetail m = true) msgs ->
  omap visitedSolver msgs = [] /\ omap generatingSolver msgs = []
  /\ omap failedSolver msgs = [] /\ omap loggedPairKey msgs = []
  /\ omap judgedPair msgs = [] /\ omap failedJudgment msgs = [].
Proof.
  induction 1 as [|m msgs Hm _ IH]; [done|].
  destruct IH as (?&?&?&?&?&?). by destruct m.
Qed.

Lemma logResponseDetails_run m html_ w :
  exists msgs,
    logResponseDetails m html_ w = (Returned (), logged w msgs)
    /\ Forall (fun m => isDetail m = true) msgs.
Proof.
  unfold logResponseDetails, bind. rewrite !logToFile_run.
  destruct (String.length html_ =? 0)%nat.
  { eexists. unfold logErrorToFile. rewrite !logToFile_run, !logged_logged.
    split; [done|]. by repeat constructor. }
  destruct (String.length html_ <? 100)%nat.
  { eexists. unfold logWarnToFile. rewrite !logToFile_run, !logged_logged.
    split; [done|]. by repeat constructor. }
  rewrite !logToFile_run.
  destruct (500 <? String.length html_)%nat.
  - eexists. rewrite !logToFile_run, !logged_logged.
    split; [done|]. by repeat constructor.
  - eexists. unfold ret. rewrite !logToFile_run, !logged_logged.
    split; [done|]. by repeat constructor.
Qed.

Lemma solverStep_empty total i sols w :
  solverStep total i "" sols w = (Returned sols, w).
Proof. done. Qed.

Lemma solverStep_reuse total i m sols w html_ :
  m ≠ "" ->
  reusableSolution w m = Some html_ ->
  solverStep total i m sols w
  = (Returned (JsObject.set sols m (solutionOf m html_)),
     logged w [MsgSkippingSolver (i + 1) total m (solutionPath (slugify m))]).
Proof.
  intros Hm Hr. unfold solverStep. destruct m as [|c m]; [done|].
  cbn [Js.isEmpty]. unfold reusableSolution in Hr.
  unfold bind at 1. unfold fileExists.
  destruct (files w !! solutionPath (slugify (String c m))) as [text_|] eqn:Hf; [|done].
  rewrite bool_decide_true by done.
  unfold bind at 1 2. unfold readFile. rewrite Hf.
  destruct (_ || _); [done|]. by injection Hr as ->.
Qed.

Lemma solverStep_generate total i m sols w :
  m ≠ "" ->
  reusableSolution w m = None ->
  exists before after,
    Forall (fun m => isDetail m = true) before
    /\ Forall (fun m => isDetail m = true) after
    /\ (before = [] \/ exists text_, files w !! solutionPath (slugify m) = Some text_)
    /\ solverStep total i m sols w =
       match (callOpenRouter m SOLVER_PROMPT {| maxTokens := Some 12000 |} w).1 with
       | Returned html_ =>
           (Returned (JsObject.set sols m (solutionOf m html_)),
            {| files := <[solutionPath (slugify m) := html_]> (files w);
               critiquesFile := critiquesFile w; network := network w;
               requests := requests w ++ [solverRequest m];
               console := console w ++ before
                          ++ [MsgGenerating (i + 1) total m (solutionPath (slugify m))]
                          ++ after |})
       | Thrown err =>
           (Returned sols,
            {| files := files w;
               critiquesFile := critiquesFile w; network := network w;
               requests := requests w ++ [solverRequest m];
               console := console w ++ before
                          ++ [MsgGenerating (i + 1) total m (solutionPath (slugify m));
                              MsgErrorGenerating m err] |})
       end.
Proof.
  intros Hm Hr. unfold solverStep. destruct m as [|c m]; [done|].
  cbn [Js.isEmpty]. set (mm := String c m) in *. unfold reusableSolution in Hr.
  assert (Hgen : forall pre,
    exists after, Forall (fun m => isDetail m = true) after /\
    (logToFile (MsgGenerating (i + 1) total mm (solutionPath (slugify mm)));;
     tryCatch
       (let* html_ := callOpenRouter mm SOLVER_PROMPT {| maxTokens := Some 12000 |} in
        let hasHtmlTag := Js.includes "<html" (Js.toLowerCase html_) in
        logResponseDetails mm html_;;
        (if negb hasHtmlTag then logWarnToFile (MsgNoHtmlTag mm) else ret ());;
        writeFile (solutionPath (slugify mm)) html_;;
        ret (JsObject.set sols mm
               {| model := mm; slug := slugify mm; html := html_ |}))
       (fun err => logErrorToFile (MsgErrorGenerating mm err);; ret sols))
      (logged w pre) =
    match (callOpenRouter mm SOLVER_PROMPT {| maxTokens := Some 12000 |} w).1 with
    | Returned html_ =>
        (Returned (JsObject.set sols mm (solutionOf mm html_)),
         {| files := <[solutionPath (slugify mm) := html_]> (files w);
            critiquesFile := critiquesFile w; network := network w;
            requests := requests w ++ [solverRequest mm];
            console := console w ++ pre
                       ++ [MsgGenerating (i + 1) total mm (solutionPath (slugify mm))]
                       ++ after |})
    | Thrown err =>
        (Returned sols,
         {| files := files w;
            critiquesFile := critiquesFile w; network := network w;
            requests := requests w ++ [solverRequest mm];
            console := console w ++ pre
                       ++ [MsgGenerating (i + 1) total mm (solutionPath (slugify mm));
                           MsgErrorGenerating mm err] |})
    end).
  { intros pre. unfold bind at 1. rewrite logToFile_run, logged_logged.
    unfold tryCatch, bind at 1. rewrite callOpenRouter_pair, callOpenRouter_logged.
    destruct (callOpenRouter mm _ _ w).1 as [html_|err].
    - destruct (logResponseDetails_run mm html_
                  (sent (logged w (pre ++ [MsgGenerating (i + 1) total mm
                                             (solutionPath (slugify mm))]))
                        (solverRequest mm))) as (details & Hd & Hdet).
      unfold bind. fold (solverRequest mm). rewrite Hd.
      destruct (negb _).
      + exists (details ++ [MsgNoHtmlTag mm]). split.
        { apply Forall_app. split; [done|]. by repeat constructor. }
        unfold logWarnToFile. rewrite logToFile_run.
        unfold writeFile, ret, logged, sent, solutionOf. simpl.
        by rewrite <- !app_assoc.
      + exists details. split; [done|].
        unfold writeFile, ret, logged, sent, solutionOf. simpl.
        by rewrite <- !app_assoc.
    - exists []. split; [done|].
      unfold logErrorToFile, bind. rewrite logToFile_run.
      unfold ret, logged, sent. simpl. by rewrite <- !app_assoc. }
  unfold bind at 1. unfold fileExists.
  destruct (files w !! solutionPath (slugify mm)) as [text_|] eqn:Hf.
  - rewrite bool_decide_true by done.
    unfold bind at 1 2. unfold readFile. rewrite Hf.
    destruct (_ || _); [|done].
    destruct (Hgen [MsgExistingInvalid (i + 1) total mm]) as (after & Ha & Hrun).
    exists [MsgExistingInvalid (i + 1) total mm], after.
    split_and!; [by repeat constructor|done|right; by exists text_|].
    etrans; [|exact Hrun]. reflexivity.
  - rewrite bool_decide_false by (by intros [? ?]).
    destruct (Hgen []) as (after & Ha & Hrun).
    rewrite logged_nil in Hrun.
    exists [], after. split_and!; [done|done|by left|].
    etrans; [|exact Hrun]. reflexivity.
Qed.

Lemma keys_set_fresh {V} (o : JsObject.t V) k v :
  k ∉ JsObject.keys o -> JsObject.keys (JsObject.set o k v) = JsObject.keys o ++ [k].
Proof.
  induction o as [|[k' v'] o IH]; intros Hk; simpl; [done|].
  unfold JsObject.keys in *. simpl in *.
  destruct (decide (k = k')) as [->|Hne]; [exfalso; apply Hk; by constructor|].
  simpl. f_equal. apply IH. intros H. apply Hk. by constructor.
Qed.

Lemma Forall_set {V} (P : string * V -> Prop) (o : JsObject.t V) k v :
  Forall P o -> P (k, v) -> k ∉ JsObject.keys o -> Forall P (JsObject.set o k v).
Proof.
  induction o as [|[k' v'] o IH]; intros Ho Hkv Hk; simpl; [by repeat constructor|].
  unfold JsObject.keys in *. simpl in *.
  destruct (decide (k = k')) as [->|Hne]; [exfalso; apply Hk; by constructor|].
  inversion Ho; subst. constructor; [done|]. apply IH; [done|done|].
  intros H. apply Hk. by constructor.
Qed.

Lemma filter_agree {A} (P Q : A -> Prop)
    `{forall x, Decision (P x)} `{forall x, Decision (Q x)} (l : list A) :
  (forall x, x ∈ l -> P x <-> Q x) -> filter P l = filter Q l.
Proof.
  induction l as [|x l IH]; intros Hl; [done|].
  rewrite !filter_cons.
  assert (Hx : P x <-> Q x) by (apply Hl; by constructor).
  rewrite IH by (intros y Hy; apply Hl; by constructor).
  destruct (decide (P x)), (decide (Q x)); tauto.
Qed.

Lemma indexed_models {A} (xs : list A) : (indexed xs).*2 = xs.
Proof. unfold indexed. apply snd_zip. by rewrite length_seq. Qed.

Lemma solverStep_summary total w0 done i m sols w :
  m ∉ done ->
  SolverSummary w0 done sols w ->
  exists sols' w',
    solverStep total i m sols w = (Returned sols', w')
    /\ SolverSummary w0 (done ++ [m]) sols' w'.
Proof.
  intros Hfresh (Hcf & Hn & reqs & msgs & Hc & Hrq & Hrm & Hvs & Hkeys & Hfail
                 & Hsols & Hlk & Hjp & Hfj).
  assert (Hnokey : m ∉ JsObject.keys sols).
  { rewrite Hkeys. intros H. apply list_elem_of_filter in H. tauto. }
  assert (Hnofail : m ∉ omap failedSolver msgs).
  { intros H. rewrite Forall_forall in Hfail. by apply Hfresh, Hfail. }
  destruct (decide (m = "")) as [->|Hm].
  { exists sols, w. split; [apply solverStep_empty|].
    split_and!; [done|done|]. exists reqs, msgs.
    rewrite !filter_app, !filter_cons_False, !filter_nil, !app_nil_r by tauto.
    split_and!; try done.
    eapply Forall_impl; [exact Hfail|]. intros x Hx. apply elem_of_app. by left. }
  destruct (reusableSolution w m) as [html_|] eqn:Hr.
  - eexists _, _. split; [by apply solverStep_reuse|].
    split_and!; [done|done|].
    exists reqs, (msgs ++ [MsgSkippingSolver (i + 1) total m (solutionPath (slugify m))]).
    rewrite !omap_app. simpl. rewrite !app_nil_r.
    rewrite !filter_app, !filter_cons_True, !filter_nil by tauto.
    split_and!; try done.
    + by rewrite Hc, app_assoc.
    + by rewrite Hvs.
    + rewrite keys_set_fresh, Hkeys by done. done.
    + eapply Forall_impl; [exact Hfail|]. intros x Hx. apply elem_of_app. by left.
    + by apply Forall_set.
  - destruct (solverStep_generate total i m sols w Hm Hr)
      as (before & after & Hb & Ha & _ & Hrun).
    destruct (detail_projections before Hb) as (B1 & B2 & B3 & B4 & B5 & B6).
    destruct (detail_projections after Ha) as (A1 & A2 & A3 & A4 & A5 & A6).
    rewrite Hrun.
    destruct (callOpenRouter m SOLVER_PROMPT _ w).1 as [html_|err].
    + eexists _, _. split; [done|]. split_and!; [done|done|].
      exists (reqs ++ [solverRequest m]),
             (msgs ++ before
                ++ [MsgGenerating (i + 1) total m (solutionPath (slugify m))] ++ after).
      rewrite !omap_app, B1, B2, B3, B4, B5, B6, A1, A2, A3, A4, A5, A6. simpl.
      rewrite !app_nil_r, map_app.
      rewrite !filter_app, !filter_cons_True, !filter_nil by tauto.
      split_and!; try done.
      * by rewrite Hc, <- app_assoc.
      * by rewrite Hrq, app_assoc.
      * by rewrite Hrm.
      * by rewrite Hvs.
      * rewrite keys_set_fresh, Hkeys by done. done.
      * eapply Forall_impl; [exact Hfail|]. intros x Hx. apply elem_of_app. by left.
      * by apply Forall_set.
    + eexists _, _. split; [done|]. split_and!; [done|done|].
      exists (reqs ++ [solverRequest m]),
             (msgs ++ before
                ++ [MsgGenerating (i + 1) total m (solutionPath (slugify m));
                    MsgErrorGenerating m err]).
      rewrite !omap_app, B1, B2, B3, B4, B5, B6. simpl.
      rewrite ?app_nil_r, map_app.
      split_and!; try done.
      * by rewrite Hc, <- app_assoc.
      * by rewrite Hrq, app_assoc.
      * by rewrite Hrm.
      * rewrite filter_app, filter_cons_True, filter_nil by tauto. by rewrite Hvs.
      * rewrite filter_app, filter_cons_False, filter_nil, app_nil_r.
        2:{ intros [_ H]. apply H. apply elem_of_app. right. by constructor. }
        rewrite Hkeys. apply filter_agree. intros x Hx. split.
        -- intros [? ?]. split; [done|]. intros H'. apply elem_of_app in H'.
           destruct H' as [?|H']; [done|]. apply list_elem_of_singleton in H'.
           by subst.
        -- intros [? H']. split; [done|]. intros ?. apply H'. apply elem_of_app. by left.
      * apply Forall_app. split.
        -- eapply Forall_impl; [exact Hfail|]. intros x Hx. apply elem_of_app. by left.
        -- constructor; [|done]. apply elem_of_app. right. by constructor.
Qed.

Lemma solverPhase_summary models w :
  NoDup models ->
  exists sols w',
    solverPhase models w = (Returned sols, w') /\ SolverSummary w models sols w'.
Proof.
  intros Hnd. unfold solverPhase.
  destruct (forEach_invariant
              (fun '(i, m) sols => solverStep (length models) i m sols)
              (fun done sols w' => SolverSummary w done.*2 sols w')
              (indexed models) JsObject.empty w) as (sols & w' & Hrun & Hsum).
  - intros done [i m] rest sols1 w1 Hxs H.
    rewrite fmap_app. simpl. apply solverStep_summary; [|done].
    assert (Hm : models = done.*2 ++ m :: rest.*2).
    { rewrite <- (indexed_models models), Hxs, fmap_app. done. }
    rewrite Hm in Hnd. apply NoDup_app in Hnd as (_ & Hnd & _).
    intros Hin. apply (Hnd m Hin). by constructor.
  - split_and!; [done|done|]. exists [], []. simpl. rewrite !app_nil_r.
    split_and!; try done; by constructor.
  - exists sols, w'. split; [done|]. by rewrite indexed_models in Hsum.
Qed.

End SolverLoop.

(* ================================================================== *)
(** ** The loader and the whole run *)
(* ================================================================== *)

Section WholeRun.

Lemma stringField_get c k s :
  stringField c k = Some s -> Json.get c k = Some (JString s).
Proof.
  unfold stringField. destruct (Json.get c k) as [[]|]; try done.
  by intros [= ->].
Qed.

Lemma stringField_object c k s : stringField c k = Some s -> Json.truthy c = true.
Proof. unfold stringField, Json.get. by destruct c. Qed.

Lemma indexDonePairs_grows items : forall d d',
  indexDonePairs items d = (d', None) -> d ⊆ d'.
Proof.
  induction items as [|c items IH]; intros d d' H; simpl in H.
  - by injection H as ->.
  - destruct (_ && _).
    + destruct (Json.toStringProperty _) as [s|]; [|done].
      destruct (Json.toStringProperty _) as [j|]; [|done].
      apply IH in H. set_solver.
    + by apply IH in H.
Qed.

Lemma indexDonePairs_complete items : forall d d',
  indexDonePairs items d = (d', None) ->
  forall c s j, c ∈ items ->
    stringField c "solverModel" = Some s -> stringField c "judgeModel" = Some j ->
    s ≠ "" -> j ≠ "" -> pairKeyOf s j ∈ d'.
Proof.
  induction items as [|c items IH]; intros d d' H c' s j Hin Hs Hj Hs' Hj'.
  - by apply elem_of_nil in Hin.
  - simpl in H. apply elem_of_cons in Hin as [->|Hin].
    + rewrite (stringField_object _ _ _ Hs) in H.
      rewrite (stringField_get _ _ _ Hs), (stringField_get _ _ _ Hj) in H.
      simpl in H. destruct s; [done|]. destruct j; [done|]. simpl in H.
      apply indexDonePairs_grows in H. set_solver.
    + destruct (_ && _).
      * destruct (Json.toStringProperty _) as [s0|]; [|done].
        destruct (Json.toStringProperty _) as [j0|]; [|done].
        by eapply IH.
      * by eapply IH.
Qed.

(** The loader returns, having only logged. *)
Lemma loadCritiques_run w :
  exists cs dp msgs,
    loadCritiques w = (Returned (cs, dp), logged w msgs)
    /\ Forall (fun m => exists d, m = MsgCouldNotParse d \/ exists n, m = MsgLoadedCritiques n) msgs
    /\ forall c s j, c ∈ cs ->
         stringField c "solverModel" = Some s -> stringField c "judgeModel" = Some j ->
         s ≠ "" -> j ≠ "" -> pairKeyOf s j ∈ dp.
Proof.
  unfold loadCritiques.
  destruct (critiquesFile w) as [|err|parsed].
  - exists [], ∅, []. rewrite logged_nil. split_and!; [done|done|].
    intros c s j Hc. by apply elem_of_nil in Hc.
  - exists [], ∅, [MsgCouldNotParse (errorMessageOr err)].
    split_and!; [done| |].
    + constructor; [|done]. exists (errorMessageOr err). by left.
    + intros c s j Hc. by apply elem_of_nil in Hc.
  - destruct parsed as [ |b0|z0|s0|items|fields];
      try (exists [], ∅, []; rewrite logged_nil; split_and!; [done|done|];
           intros c s j Hc; by apply elem_of_nil in Hc).
    destruct (indexDonePairs items ∅) as [dp [err|]] eqn:Hidx.
    + exists [], dp, [MsgCouldNotParse (errorMessageOr err)].
      split_and!; [done| |].
      * constructor; [|done]. exists (errorMessageOr err). by left.
      * intros c s j Hc. by apply elem_of_nil in Hc.
    + exists items, dp, [MsgLoadedCritiques (length items)].
      split_and!; [done| |].
      * constructor; [|done]. exists "". right. by eexists.
      * exact (indexDonePairs_complete items ∅ dp Hidx).
Qed.

Lemma load_projections msgs :
  Forall (fun m => exists d, m = MsgCouldNotParse d \/ exists n, m = MsgLoadedCritiques n) msgs ->
  omap visitedSolver msgs = [] /\ omap generatingSolver msgs = []
  /\ omap failedSolver msgs = [] /\ omap loggedPairKey msgs = []
  /\ omap judgedPair msgs = [] /\ omap failedJudgment msgs = [].
Proof.
  induction 1 as [|m msgs Hm _ IH]; [done|].
  destruct IH as (?&?&?&?&?&?). by destruct Hm as (d & [->|[n ->]]).
Qed.

Lemma mainWith_summary solvers judges env :
  NoDup solvers ->
  exists locals w,
    mainWith solvers judges (boot env) = (Returned locals, w)
    /\ RunSummary solvers judges env locals w.
Proof.
  intros Hnd. unfold mainWith.
  destruct (loadCritiques_run (boot env)) as (cs & dp & lm & Hload & Hlm & Hdp).
  destruct (load_projections lm Hlm) as (L1 & L2 & L3 & L4 & L5 & L6).
  unfold bind at 1. rewrite Hload.
  unfold bind at 1. rewrite logToFile_run, logged_logged.
  set (wA := logged (boot env) (lm ++ [MsgSolverPhase])).
  destruct (solverPhase_summary solvers wA Hnd)
    as (sols & w1 & Hsolve & Hcf1 & Hn1 & reqs1 & msgs1 & Hc1 & Hrq1 & Hrm1 & Hvs1
        & Hkeys1 & Hfail1 & Hsols1 & Hlk1 & Hjp1 & Hfj1).
  unfold bind at 1. rewrite Hsolve.
  unfold bind at 1. rewrite logToFile_run.
  set (wB := logged w1 [MsgJudgePhase]).
  set (st0 := {| pairIndex := 0; critiques := cs; donePairs := dp |}).
  destruct (judgePhase_summary judges (JsObject.entries sols) st0 wB)
    as (st & w2 & Hjudge & Hf2 & Hn2 & Hpi2 & recs & reqs2 & msgs2 & Hc2 & Hcr2 & Hdp2
        & Hrq2 & Hrm2 & Hlk2 & Hjp2 & Hnd2 & Hrecs2 & Hdone2 & Hfail2 & Hvs2 & Hfs2
        & Hgs2 & Hwarn2 & Hcf2).
  unfold bind at 1. rewrite Hjudge.
  unfold bind at 1. rewrite logToFile_run. unfold ret.
  eexists _, _. split; [done|].
  assert (Hconsole : console (logged w2 [MsgDone (length (critiques st))])
                     = lm ++ [MsgSolverPhase] ++ msgs1 ++ [MsgJudgePhase] ++ msgs2
                          ++ [MsgDone (length (critiques st))]).
  { simpl. rewrite Hc2. simpl. rewrite Hc1. simpl. by rewrite <- !app_assoc. }
  exists recs, lm. simpl solutions. simpl judged. simpl loadedCritiques.
  simpl loadedPairs. rewrite Hconsole, !omap_app.
  rewrite L1, L2, L3, L4, L5, L6, Hvs2, Hfs2, Hgs2, Hlk1, Hjp1, Hfj1. simpl.
  rewrite !app_nil_r.
  split_and!; try done.
  - rewrite Hrq2. simpl. rewrite Hrq1. simpl. by rewrite map_app, Hrm1, Hrm2.
  - rewrite Hcf2. destruct recs; [|done]. simpl. by rewrite Hcf1.
Qed.

End WholeRun.

(* ================================================================== *)
(** ** The configured model lists *)
(* ================================================================== *)

Section Configuration.

Lemma models_NoDup : NoDup MODELS.
Proof. apply (bool_decide_unpack _). by vm_compute. Qed.

Lemma models_wellFormed : Forall (fun m => wellFormedId m = true) MODELS.
Proof. unfold MODELS. repeat constructor. Qed.

Lemma wellFormedId_spec m :
  wellFormedId m = true ->
  m ≠ "" /\ occursb "|" m = false /\ JsObject.arrayIndex m = None.
Proof.
  unfold wellFormedId. intros H.
  apply andb_true_iff in H as [H H3]. apply andb_true_iff in H as [H1 H2].
  apply negb_true_iff in H1, H2. apply bool_decide_eq_true in H3.
  split_and!; [|done|done]. by intros ->.
Qed.

Lemma model_wellFormed m : m ∈ MODELS -> wellFormedId m = true.
Proof. intros H. by apply (proj1 (Forall_forall _ _) models_wellFormed). Qed.

Lemma occursb_app c a b : occursb c (a +:+ b) = occursb c a || occursb c b.
Proof. induction a as [|x a IH]; simpl; [done|]. by rewrite IH, orb_assoc. Qed.

(** A pair key made of identifiers without '|' names one pair only. *)
Lemma pairKeyOf_inj s j s' j' :
  occursb "|" s = false -> occursb "|" j = false ->
  pairKeyOf s j = pairKeyOf s' j' -> s' = s /\ j' = j.
Proof.
  unfold pairKeyOf. intros Hs Hj. revert s' Hs.
  induction s as [|a s IH]; intros s' Hs H.
  - destruct s' as [|c s']; simpl in H.
    + by injection H as ->.
    + injection H as Hc H. rewrite H, occursb_app in Hj. cbn in Hj.
      by destruct (occursb "|" s').
  - simpl in Hs. apply orb_false_iff in Hs as [Ha Hs].
    destruct s' as [|c s']; simpl in H.
    + injection H as Ha' _. by apply bool_decide_eq_false in Ha.
    + injection H as Hc H. destruct (IH _ Hs H) as [-> ->]. by subst.
Qed.

Lemma names_only {V} (o : JsObject.t V) :
  Forall (fun k => JsObject.arrayIndex k = None) (JsObject.keys o) ->
  JsObject.indexProperties o = [] /\ JsObject.nameProperties o = o.
Proof.
  unfold JsObject.keys. induction o as [|[k v] o IH]; intros H; [done|].
  inversion H as [|? ? Hk Ho]; subst. simpl in Hk.
  destruct (IH Ho) as [IH1 IH2].
  cbn [JsObject.indexProperties JsObject.nameProperties].
  by rewrite Hk, IH1, IH2.
Qed.

Lemma names_have_no_index {V} (o : JsObject.t V) :
  Forall (fun k => JsObject.arrayIndex k = None) (JsObject.keys o) ->
  JsObject.entries o = o.
Proof.
  intros H. unfold JsObject.entries.
  by destruct (names_only o H) as [-> ->].
Qed.

Lemma get_keys {V} (o : JsObject.t V) k :
  is_Some (JsObject.get o k) <-> k ∈ JsObject.keys o.
Proof.
  unfold JsObject.keys. induction o as [|[k' v] o IH]; simpl.
  - split; [by intros [? ?]|]. intros H. by apply elem_of_nil in H.
  - destruct (decide (k = k')) as [->|Hne].
    + split; [intros _; by constructor|by eexists].
    + rewrite IH. split; [by constructor|].
      intros H. apply elem_of_cons in H as [?|?]; done.
Qed.

Lemma crossProduct_elem {A} (entries : list (string * A)) judges s (sol : A) j :
  (s, sol, j) ∈ crossProduct entries judges <-> (s, sol) ∈ entries /\ j ∈ judges.
Proof.
  unfold crossProduct. rewrite list_elem_of_In, in_flat_map. split.
  - intros ([s' sol'] & Hin & Hj). apply list_elem_of_In in Hin, Hj.
    apply list_elem_of_fmap in Hj as (j' & [= -> -> ->] & Hj). done.
  - intros [He Hj]. exists (s, sol). rewrite <- !list_elem_of_In. split; [done|].
    apply list_elem_of_fmap. by exists j.
Qed.

Lemma crossProduct_length {A} (entries : list (string * A)) judges :
  length (crossProduct entries judges) = (length entries * length judges)%nat.
Proof.
  unfold crossProduct. induction entries as [|e entries IH]; [done|].
  simpl. rewrite length_app, length_map, IH. done.
Qed.

Lemma crossProduct_keys {A} (entries : list (string * A)) judges :
  map tripleKey (crossProduct entries judges)
  = flat_map (fun s => map (pairKeyOf s) judges) entries.*1.
Proof.
  unfold crossProduct. induction entries as [|[s sol] entries IH]; [done|].
  simpl. rewrite map_app, IH. f_equal. rewrite map_map. done.
Qed.

Lemma crossProduct_pairs {A} (entries : list (string * A)) judges :
  map (fun t => (t.1.1, t.2)) (crossProduct entries judges)
  = flat_map (fun s => map (fun j => (s, j)) judges) entries.*1.
Proof.
  unfold crossProduct. induction entries as [|[s sol] entries IH]; [done|].
  simpl. rewrite map_app, IH. f_equal. rewrite map_map. done.
Qed.

(** The run with the configured lists: it returns, with the summary, and
    no configured identifier is an array index, so that the entries of
    [solutions] come out in the order of their creation. *)
Lemma main_summary env :
  exists locals w,
    main (boot env) = (Returned locals, w)
    /\ RunSummary SOLVER_MODELS JUDGE_MODELS env locals w
    /\ JsObject.entries (solutions locals) = solutions locals
    /\ Forall (fun k => k ∈ MODELS) (JsObject.keys (solutions locals)).
Proof.
  destruct (mainWith_summary SOLVER_MODELS JUDGE_MODELS env models_NoDup)
    as (locals & w & Hrun & Hsum).
  exists locals, w. split; [done|]. split; [done|].
  destruct Hsum as (recs & lm & _ & _ & _ & Hkeys & _).
  assert (Hin : Forall (fun k => k ∈ MODELS) (JsObject.keys (solutions locals))).
  { rewrite Hkeys. apply Forall_forall. intros k Hk.
    apply list_elem_of_filter in Hk. tauto. }
  split; [|done]. apply names_have_no_index.
  eapply Forall_impl; [exact Hin|]. intros k Hk.
  by destruct (wellFormedId_spec k (model_wellFormed k Hk)) as (_ & _ & ?).
Qed.

End Configuration.

(* ================================================================== *)
(** ** The pipeline *)
(* ================================================================== *)

Section Pipeline.

Lemma stringField_solver r : stringField (critiqueJson r) "solverModel" = Some (cfSolver r).
Proof. reflexivity. Qed.




Lemma appended_are_recs locals recs :
  critiques (judged locals) = loadedCritiques locals ++ map critiqueJson recs ->
  appendedCritiques locals = map critiqueJson recs.
Proof. intros H. unfold appendedCritiques. by rewrite H, drop_app_length. Qed.

Lemma filter_none {A} (P : A -> Prop) `{forall x, Decision (P x)} (l : list A) :
  (forall x, x ∈ l -> ~ P x) -> filter P l = [].
Proof.
  induction l as [|x l IH]; intros Hl; [done|].
  rewrite filter_cons_False by (apply Hl; by constructor).
  apply IH. intros y Hy. apply Hl. by constructor.
Qed.



(** Every Critique the run appended is for a configured solver holding a
    solution and for a configured judge. *)
Lemma appended_pairs_configured env locals w recs r :
  RunSummary SOLVER_MODELS JUDGE_MODELS env locals w ->
  JsObject.entries (solutions locals) = solutions locals ->
  Forall (fun c => (critiqueKey c ∉ loadedPairs locals) /\
                   (exists sol, (cfSolver c, sol, cfJudge c)
                                ∈ crossProduct (JsObject.entries (solutions locals))
                                               JUDGE_MODELS
                                /\ cfSlug c = slug sol)) recs ->
  r ∈ recs ->
  cfSolver r ∈ JsObject.keys (solutions locals)
  /\ cfSolver r ∈ MODELS /\ cfJudge r ∈ MODELS
  /\ cfSlug r = slugify (cfSolver r)
  /\ critiqueKey r ∉ loadedPairs locals.
Proof.
  intros Hsum Hent Hrecs Hr.
  destruct Hsum as (_ & _ & _ & _ & _ & Hkeys & _ & Hsols & _).
  rewrite Forall_forall in Hrecs. destruct (Hrecs r Hr) as (Hfresh & sol & Hin & Hslug).
  apply crossProduct_elem in Hin as [Hin Hj]. rewrite Hent in Hin.
  assert (Hk : cfSolver r ∈ JsObject.keys (solutions locals)).
  { unfold JsObject.keys. apply list_elem_of_fmap. by exists (cfSolver r, sol). }
  split_and!; try done.
  - rewrite Hkeys in Hk. apply list_elem_of_filter in Hk. tauto.
  - rewrite Forall_forall in Hsols. specialize (Hsols _ Hin). simpl in Hsols.
    rewrite Hslug, Hsols. done.
Qed.

Lemma holders_are_keys locals w env :
  RunSummary SOLVER_MODELS JUDGE_MODELS env locals w ->
  filter (fun m => is_Some (JsObject.get (solutions locals) m)) SOLVER_MODELS
  = JsObject.keys (solutions locals).
Proof.
  intros (_ & _ & _ & _ & _ & Hkeys & _).
  rewrite Hkeys. apply filter_agree. intros m Hm.
  rewrite get_keys, Hkeys, list_elem_of_filter. tauto.
Qed.

Lemma configured_visited : filter (fun m : string => m ≠ "") SOLVER_MODELS = SOLVER_MODELS.
Proof. reflexivity. Qed.

(** C8.  The judge phase goes through the pairs (solver, judge) of the
    solvers holding a solution, solvers outside in the order of the solver
    list, which is the order the solver phase went through, and judges
    inside in the order of the judge list: the two nested loops are one loop
    over that list of pairs, the log names the pair keys in that order, one
    pair key names one pair, and the pair counter ends at the number of
    pairs.  A solver without a solution is in no pair. *)
Theorem judge_pairs_in_catalog_order (env : Environment) :
  exists locals w,
    main (boot env) = (Returned locals, w) /\
    let holders :=
      filter (fun m => is_Some (JsObject.get (solutions locals) m)) SOLVER_MODELS in
    let pairs := crossProduct (JsObject.entries (solutions locals)) JUDGE_MODELS in
    omap visitedSolver (console w) = SOLVER_MODELS /\
    (JsObject.entries (solutions locals)).*1 = holders /\
    map (fun t => (t.1.1, t.2)) pairs
      = flat_map (fun s => map (fun j => (s, j)) JUDGE_MODELS) holders /\
    (forall st w0,
       judgePhase JUDGE_MODELS (JsObject.entries (solutions locals)) st w0
       = forEach pairs
           (fun t => judgeStep (length holders * length JUDGE_MODELS) t.1.1 t.1.2 t.2)
           st w0) /\
    omap loggedPairKey (console w)
      = flat_map (fun s => map (pairKeyOf s) JUDGE_MODELS) holders /\
    (forall s j s' j', s ∈ SOLVER_MODELS -> j ∈ JUDGE_MODELS ->
       pairKeyOf s j = pairKeyOf s' j' -> s' = s /\ j' = j) /\
    pairIndex (judged locals) = (length holders * length JUDGE_MODELS)%nat.
Proof.
  destruct (main_summary env) as (locals & w & Hrun & Hsum & Hent & Hin).
  exists locals, w. split; [done|]. cbv zeta.
  rewrite (holders_are_keys _ _ _ Hsum).
  destruct Hsum as (recs & lm & _ & _ & Hpi & _ & Hvs & _ & _ & Hlk & _).
  assert (Hlen : length (JsObject.keys (solutions locals))
                 = length (JsObject.entries (solutions locals))).
  { rewrite Hent. unfold JsObject.keys. by rewrite length_map. }
  split_and!.
  - by rewrite Hvs.
  - by rewrite Hent.
  - rewrite crossProduct_pairs, Hent. done.
  - intros st w0. rewrite judgePhase_unfolded. by rewrite Hlen.
  - rewrite Hlk, crossProduct_keys, Hent. done.
  - intros s j s' j' Hs Hj.
    destruct (wellFormedId_spec s (model_wellFormed s Hs)) as (_ & Hs' & _).
    destruct (wellFormedId_spec j (model_wellFormed j Hj)) as (_ & Hj' & _).
    by apply pairKeyOf_inj.
  - rewrite Hpi, crossProduct_length, Hlen. done.
Qed.

(** C5.  The solver loop comes to every solver model.  A solver model has
    no solution in memory exactly when its call failed, which is when the
    error line for it is logged ([solverStep_generate]); such a model is
    the solver of no pair of the judge loop and of no Critique appended by
    the run. *)
Theorem failed_solver_is_dropped (env : Environment) :
  exists locals w,
    main (boot env) = (Returned locals, w) /\
    omap visitedSolver (console w) = SOLVER_MODELS /\
    forall m, m ∈ SOLVER_MODELS ->
      (m ∈ omap failedSolver (console w)
       <-> JsObject.get (solutions locals) m = None) /\
      (m ∈ omap failedSolver (console w) ->
       (forall j, pairKeyOf m j ∉ omap loggedPairKey (console w)) /\
       (forall c, c ∈ appendedCritiques locals ->
                  stringField c "solverModel" ≠ Some m)).
Proof.
  destruct (main_summary env) as (locals & w & Hrun & Hsum & Hent & Hin).
  exists locals, w. split; [done|].
  pose proof Hsum as (recs & lm & _ & Hcr & _ & Hkeys & Hvs & _ & _ & Hlk & _ & _
                      & Hrecs & _).
  split; [by rewrite Hvs|]. intros m Hm.
  assert (Hdrop : m ∈ omap failedSolver (console w)
                  <-> m ∉ JsObject.keys (solutions locals)).
  { rewrite Hkeys, list_elem_of_filter. split.
    - tauto.
    - intros H. destruct (decide (m ∈ omap failedSolver (console w))); [done|].
      exfalso. apply H. split_and!; [|done|done].
      by destruct (wellFormedId_spec m (model_wellFormed m Hm)) as (? & _). }
  split.
  - rewrite Hdrop, <- get_keys. rewrite <- eq_None_not_Some. done.
  - intros Hfail. apply Hdrop in Hfail. split.
    + intros j Hj. rewrite Hlk in Hj. apply list_elem_of_fmap in Hj as ([[s sol] j'] & Hk & Ht).
      unfold tripleKey in Hk. simpl in Hk.
      apply crossProduct_elem in Ht as [Hs Hj']. rewrite Hent in Hs.
      assert (Hsk : s ∈ JsObject.keys (solutions locals)).
      { unfold JsObject.keys. apply list_elem_of_fmap. by exists (s, sol). }
      assert (Hsm : s ∈ MODELS) by (by apply (proj1 (Forall_forall _ _) Hin)).
      destruct (wellFormedId_spec s (model_wellFormed s Hsm)) as (_ & Hs' & _).
      destruct (wellFormedId_spec j' (model_wellFormed j' Hj')) as (_ & Hj'' & _).
      destruct (pairKeyOf_inj s j' m j Hs' Hj'' (eq_sym Hk)) as [-> _]. done.
    + intros c Hc. rewrite (appended_are_recs _ _ Hcr) in Hc.
      apply list_elem_of_fmap in Hc as (r & -> & Hr).
      rewrite stringField_solver. intros [= Hrm].
      destruct (appended_pairs_configured env locals w recs r Hsum Hent Hrecs Hr)
        as (Hk & _).
      by rewrite Hrm in Hk.
Qed.




End Pipeline.

(* ================================================================== *)
(** ** The membership test for Solutions *)
(* ================================================================== *)

Section SolutionMembership.
Import Js.

Lemma startsWith_spec p s : startsWith p s = true <-> exists after, s = p +:+ after.
Proof.
  revert s. induction p as [|a p IH]; intros s; simpl.
  - split; [by exists s|done].
  - destruct s as [|b s].
    + split; [done|]. by intros [after ?].
    + destruct (ascii_dec a b) as [->|Hne].
      * rewrite IH. split; intros [after H]; exists after; [by rewrite H|].
        by injection H.
      * split; [done|]. intros [after H]. by injection H.
Qed.

Lemma includes_spec p s :
  includes p s = true <-> exists before after, s = before +:+ p +:+ after.
Proof.
  induction s as [|c s IH].
  - cbn [includes]. rewrite orb_false_r, startsWith_spec. split.
    + intros [after H]. by exists "", after.
    + intros (before & after & H). destruct before; [by exists after|done].
  - cbn [includes]. rewrite orb_true_iff, startsWith_spec, IH. split.
    + intros [[after H]|(before & after & H)].
      * by exists "", after.
      * exists (String c before), after. simpl. by rewrite H.
    + intros (before & after & H). destruct before as [|b before].
      * left. by exists after.
      * right. exists before, after. simpl in H. by injection H.
Qed.

Lemma mapChars_split f s a b :
  mapChars f s = a +:+ b ->
  exists s1 s2, s = s1 +:+ s2 /\ mapChars f s1 = a /\ mapChars f s2 = b.
Proof.
  revert s. induction a as [|x a IH]; intros s H.
  - by exists "", s.
  - destruct s as [|c s]; [done|]. simpl in H. injection H as Hx H.
    destruct (IH s H) as (s1 & s2 & -> & H1 & H2).
    exists (String c s1), s2. simpl. by rewrite Hx, H1.
Qed.

Lemma includes_lowered marker s :
  includes marker (toLowerCase s) = true <-> containsIgnoringCase marker s.
Proof.
  rewrite includes_spec. unfold containsIgnoringCase, toLowerCase. split.
  - intros (before & after & H).
    apply mapChars_split in H as (s1 & s' & -> & H1 & H).
    apply mapChars_split in H as (s2 & s3 & -> & H2 & H3).
    by exists s1, s2, s3.
  - intros (before & mid & after & -> & H).
    exists (mapChars toLowerCaseChar before), (mapChars toLowerCaseChar after).
    by rewrite !mapChars_app, H.
Qed.

Lemma reusableSolution_spec w m text_ :
  reusableSolution w m = Some text_
  <-> files w !! solutionPath (slugify m) = Some text_
      /\ trim text_ ≠ "" /\ containsIgnoringCase "<html" (trim text_).
Proof.
  unfold reusableSolution.
  destruct (files w !! solutionPath (slugify m)) as [t|]; [|by split; [|intros [? _]]].
  assert (Hlen : (String.length (trim t) =? 0)%nat = true <-> trim t = "")
    by (by destruct (trim t)).
  pose proof (includes_lowered "<html" (trim t)) as Hinc.
  destruct (String.length (trim t) =? 0)%nat;
    destruct (includes "<html" (toLowerCase (trim t))); cbn [orb negb].
  - split; [done|]. intros ([= <-] & H & _). destruct H. by apply Hlen.
  - split; [done|]. intros ([= <-] & H & _). destruct H. by apply Hlen.
  - split.
    + intros [= <-]. split_and!; [done| |by apply Hinc].
      intros H. apply Hlen in H. done.
    + by intros ([= <-] & _).
  - split; [done|]. intros ([= <-] & _ & H). apply Hinc in H. done.
Qed.

Lemma reusableSolution_present w m :
  is_Some (reusableSolution w m) <-> solutionPresent w m.
Proof.
  unfold solutionPresent. split.
  - intros [t Ht]. exists t. by apply reusableSolution_spec.
  - intros (t & Ht). exists t. by apply reusableSolution_spec.
Qed.

(** C6.  For a solver model, the solver loop makes no call exactly when the
    Solution is present: a file at the path of the slug whose content,
    trimmed, is not empty and contains "<html" up to letter case; the file
    content is then the solution held in memory.  Otherwise, also when a
    file is there but empty or without the marker, the loop sends one
    request for the model, and the text the call returns is written over
    the file and held in memory. *)
Theorem solution_membership_test
    (total i : nat) (m : string) (sols : Solutions) (w : World) :
  m ∈ SOLVER_MODELS ->
  let path := solutionPath (slugify m) in
  let result := solverStep total i m sols w in
  (solutionPresent w m <-> requests result.2 = requests w) /\
  (forall text_, solutionPresent w m -> files w !! path = Some text_ ->
     result.1 = Returned (JsObject.set sols m (solutionOf m text_))
     /\ files result.2 = files w) /\
  (~ solutionPresent w m ->
     requests result.2 = requests w ++ [solverRequest m] /\
     forall html_,
       (callOpenRouter m SOLVER_PROMPT {| maxTokens := Some 12000 |} w).1
       = Returned html_ ->
       result.1 = Returned (JsObject.set sols m (solutionOf m html_))
       /\ files result.2 = <[path := html_]> (files w)).
Proof.
  intros Hm. cbv zeta.
  destruct (wellFormedId_spec m (model_wellFormed m Hm)) as (Hne & _).
  destruct (reusableSolution w m) as [t|] eqn:Hr.
  - assert (Hp : solutionPresent w m).
    { apply reusableSolution_present. rewrite Hr. by eexists. }
    rewrite (solverStep_reuse total i m sols w t Hne Hr). simpl.
    split_and!.
    + done.
    + intros text_ _ Hf. apply reusableSolution_spec in Hr as (Hf' & _).
      rewrite Hf in Hf'. by injection Hf' as ->.
    + done.
  - assert (Hp : ~ solutionPresent w m).
    { intros H. apply reusableSolution_present in H. rewrite Hr in H. by destruct H. }
    destruct (solverStep_generate total i m sols w Hne Hr)
      as (before & after & _ & _ & _ & Hrun).
    rewrite Hrun.
    assert (Hgrow : requests w ++ [solverRequest m] ≠ requests w).
    { intros H. apply (f_equal length) in H. rewrite length_app in H. simpl in H. lia. }
    destruct (callOpenRouter m SOLVER_PROMPT _ w).1 as [html_|err]; simpl.
    + split_and!.
      * split; [done|]. intros H. by destruct Hgrow.
      * done.
      * intros _. split; [done|]. by intros ? [= ->].
    + split_and!.
      * split; [done|]. intros H. by destruct Hgrow.
      * done.
      * intros _. split; [done|]. by intros ? [=].
Qed.

End SolutionMembership.


(* ================================================================== *)
(** ** The loader at startup *)
(* ================================================================== *)

Section Loader.



(** A file that parses as something else than an array is dropped, but
    without a warning. *)
Example non_array_dropped_silently :
  loadCritiques
    (boot {| envFiles := ∅; envCritiques := ParsedCritiques (JObject []);
             envNetwork := fun _ => Scenario.overloaded |})
  = (Returned ([], ∅),
     boot {| envFiles := ∅; envCritiques := ParsedCritiques (JObject []);
             envNetwork := fun _ => Scenario.overloaded |}).
Proof. reflexivity. Qed.


End Loader.

(* ================================================================== *)
(** ** The statements at work on example environments *)
(* ================================================================== *)

Section Witnesses.

#[local] Transparent SOLVER_PROMPT JUDGE_PROMPT_TEMPLATE buildJudgePrompt.



Lemma failed_solver_is_dropped_witness :
  exists locals w,
    main (boot Scenario.resumed) = (Returned locals, w)
    /\ Scenario.failedModel ∈ SOLVER_MODELS
    /\ Scenario.failedModel ∈ omap failedSolver (console w)
    /\ JsObject.get (solutions locals) Scenario.failedModel = None
    /\ (forall j, pairKeyOf Scenario.failedModel j ∉ omap loggedPairKey (console w))
    /\ (forall c, c ∈ appendedCritiques locals ->
                  stringField c "solverModel" ≠ Some Scenario.failedModel).
Proof.
  destruct (failed_solver_is_dropped Scenario.resumed) as (locals & w & Hrun & _ & H).
  exists locals, w. split; [exact Hrun|].
  assert (Hm : Scenario.failedModel ∈ SOLVER_MODELS) by by_computation.
  assert (E : bool_decide
                (Scenario.failedModel
                 ∈ omap failedSolver (console (main (boot Scenario.resumed)).2)) = true)
    by (vm_compute; reflexivity).
  rewrite Hrun in E. simpl in E. apply bool_decide_eq_true in E.
  destruct (H _ Hm) as [Hiff Hdrop].
  split; [exact Hm|]. split; [exact E|].
  split; [exact (proj1 Hiff E)|]. exact (Hdrop E).
Defined.

Lemma judge_pairs_in_catalog_order_witness :
  exists locals w,
    main (boot Scenario.resumed) = (Returned locals, w)
    /\ Scenario.solver ∈ SOLVER_MODELS /\ Scenario.judge ∈ JUDGE_MODELS
    /\ (forall s' j', pairKeyOf Scenario.solver Scenario.judge = pairKeyOf s' j' ->
                      s' = Scenario.solver /\ j' = Scenario.judge)
    /\ omap loggedPairKey (console w)
       = flat_map (fun s => map (pairKeyOf s) JUDGE_MODELS)
           (filter (fun m => is_Some (JsObject.get (solutions locals) m)) SOLVER_MODELS).
Proof.
  destruct (judge_pairs_in_catalog_order Scenario.resumed)
    as (locals & w & Hrun & _ & _ & _ & _ & Hkeys & Hinj & _).
  exists locals, w. split; [exact Hrun|].
  assert (Hs : Scenario.solver ∈ SOLVER_MODELS) by by_computation.
  assert (Hj : Scenario.judge ∈ JUDGE_MODELS) by by_computation.
  split; [exact Hs|]. split; [exact Hj|].
  split; [|exact Hkeys]. intros s' j'. exact (Hinj _ _ s' j' Hs Hj).
Defined.

Lemma solution_membership_test_witness :
  Scenario.solver ∈ SOLVER_MODELS
  /\ solutionPresent (boot Scenario.resumed) Scenario.solver
  /\ requests (solverStep 8 2 Scenario.solver JsObject.empty (boot Scenario.resumed)).2
     = []
  /\ (solverStep 8 2 Scenario.solver JsObject.empty (boot Scenario.resumed)).1
     = Returned (JsObject.set JsObject.empty Scenario.solver
                   (solutionOf Scenario.solver Scenario.storedSolution)).
Proof.
  assert (Hs : Scenario.solver ∈ SOLVER_MODELS) by by_computation.
  assert (Hf : files (boot Scenario.resumed) !! solutionPath (slugify Scenario.solver)
               = Some Scenario.storedSolution) by (vm_compute; reflexivity).
  assert (Hp : solutionPresent (boot Scenario.resumed) Scenario.solver).
  { exists Scenario.storedSolution. split; [exact Hf|]. split; [by vm_compute|].
    exists "<!DOCTYPE html>", "<HTML", "><body>schedule</body></HTML>".
    split; reflexivity. }
  destruct (solution_membership_test 8 2 Scenario.solver JsObject.empty
              (boot Scenario.resumed) Hs) as (Hiff & Hkeep & _).
  split; [exact Hs|]. split; [exact Hp|].
  split; [exact (proj1 Hiff Hp)|]. exact (proj1 (Hkeep _ Hp Hf)).
Defined.

Lemma callOpenRouter_fragments_witness :
  network Scenario.fragmentWorld (length (requests Scenario.fragmentWorld))
    = FetchResolved Scenario.fragmentResponse
  /\ ok Scenario.fragmentResponse = true
  /\ (callOpenRouter Scenario.judge "Is this solution correct?" noOptions
        Scenario.fragmentWorld).1
     = Returned ("YES" +:+ Js.LF +:+ "" +:+ Js.LF +:+ "fine").
Proof.
  split; [reflexivity|]. split; [reflexivity|].
  exact (proj1 (callOpenRouter_fragments Scenario.judge "Is this solution correct?"
                  noOptions Scenario.fragmentWorld Scenario.fragmentResponse
                  {| choices :=
                       Some [ {| message :=
                                   Some {| content :=
                                             Some (ContentParts Scenario.fragments) |} |} ] |}
                  Scenario.fragments eq_refl eq_refl eq_refl eq_refl)).
Defined.

End Witnesses.

(* ================================================================== *)
(** ** Other model lists *)
(* ================================================================== *)

(** The statements above are about [main], that is about the configured
    lists, which hold no identifier twice and no array index
    ([models_NoDup], [models_wellFormed]).  The two examples record what
    [mainWith] does for lists without these properties. *)
Section OtherModelLists.

#[local] Transparent SOLVER_PROMPT JUDGE_PROMPT_TEMPLATE buildJudgePrompt.

(** With a solver listed twice, the second call for it can fail while the
    answer to the first stays in memory. *)
Example solver_listed_twice :
  match mainWith ["a"; "a"] ["j"] (boot Scenario.answersOnce) with
  | (Returned locals, w) =>
      omap failedSolver (console w) = ["a"]
      /\ JsObject.keys (solutions locals) = ["a"]
      /\ omap judgedPair (console w) = [("a", "j")]
  | (Thrown _, _) => False
  end.
Proof. vm_compute. done. Qed.

(** With a solver named by an array index, [Object.entries] moves it to
    the front, and the judge loop starts with it. *)
Example solver_named_by_index :
  match mainWith ["b"; "1"] ["j"] (boot Scenario.answersAll) with
  | (Returned locals, w) =>
      JsObject.keys (solutions locals) = ["b"; "1"]
      /\ omap judgedPair (console w) = [("1", "j"); ("b", "j")]
  | (Thrown _, _) => False
  end.
Proof. vm_compute. done. Qed.

End OtherModelLists.

(* ================================================================== *)
(** ** Further properties: slugs and paths *)
(* ================================================================== *)

Section Slugs.
Import Js.

Lemma occurs_app c a b : occurs c (a +:+ b) <-> occurs c a \/ occurs c b.
Proof. induction a as [|x a IH]; simpl; [tauto|]. rewrite IH. tauto. Qed.

Lemma string_app_inv_head a b c : a +:+ b = a +:+ c -> b = c.
Proof. induction a as [|x a IH]; simpl; [done|]. intros [= H]. by apply IH. Qed.

Lemma string_app_inv_tail a b c : a +:+ c = b +:+ c -> a = b.
Proof.
  intros H.
  assert (Hlen : String.length a = String.length b).
  { apply (f_equal String.length) in H. rewrite !string_app_length in H. lia. }
  revert b H Hlen. induction a as [|x a IH]; intros [|y b] H Hlen; try done.
  simpl in H, Hlen. injection H as -> H. f_equal. apply IH; [done|lia].
Qed.

(** X1.  A slug is as long as the identifier, and an identifier is its own
    slug exactly when it holds neither '/' nor ':'. *)
Theorem slugify_fixed_points (m : string) :
  String.length (slugify m) = String.length m /\
  (slugify m = m <-> ~ occurs "/" m /\ ~ occurs ":" m).
Proof.
  split; [apply mapChars_length|].
  unfold slugify. induction m as [|c m IH]; simpl; [tauto|].
  split.
  - intros [= Hc Hm]. apply IH in Hm as [H1 H2].
    split; intros [H|H]; try tauto; subst c; discriminate.
  - intros [H1 H2]. f_equal.
    + destruct (ascii_dec c "/") as [->|H1']; [tauto|].
      destruct (ascii_dec c ":") as [->|H2']; [tauto|].
      destruct c as [[] [] [] [] [] [] [] []]; try reflexivity; congruence.
    + apply IH. tauto.
Qed.

(** X2.  The solution file of any model lies directly in the solutions
    directory: after the directory name the path holds no '/', whatever
    separators the identifier holds. *)
Theorem solution_path_stays_in_directory (m : string) :
  exists name,
    solutionPath (slugify m) = "solutions/" +:+ name
    /\ ~ occurs "/" name
    /\ name = slugify m +:+ ".html".
Proof.
  exists (slugify m +:+ ".html"). split; [done|]. split; [|done].
  rewrite occurs_app. intros [H|H].
  - revert H. unfold slugify. induction m as [|c m IH]; simpl; [done|].
    intros [H|H]; [|by apply IH].
    destruct c as [[] [] [] [] [] [] [] []]; discriminate.
  - simpl in H. repeat (destruct H as [H|H]; [discriminate|]). done.
Qed.

Lemma solution_path_injective_aux a b :
  solutionPath (slugify a) = solutionPath (slugify b) -> slugify a = slugify b.
Proof.
  unfold solutionPath. intros H.
  apply string_app_inv_head in H. by apply string_app_inv_tail in H.
Qed.

(** X3.  Two models share a solution file exactly when they share a slug;
    so do any two identifiers that differ by a '/' in place of a ':'. *)
Theorem solution_file_shared_by_slug (a b : string) :
  (solutionPath (slugify a) = solutionPath (slugify b) <-> slugify a = slugify b)
  /\ solutionPath (slugify (a +:+ "/" +:+ b))
     = solutionPath (slugify (a +:+ ":" +:+ b)).
Proof.
  split.
  - split; [apply solution_path_injective_aux|by intros ->].
  - unfold slugify. by rewrite !mapChars_app.
Qed.

End Slugs.

(* ================================================================== *)
(** ** Further properties: the judge prompt *)
(* ================================================================== *)

#[local] Opaque judgePromptPrefix judgePromptSuffix judgePlaceholder.

Section JudgePrompt.
Import Js JsReplace.

Lemma startsWith_includes p s : startsWith p s = true -> includes p s = true.
Proof. intros H. destruct s; simpl; by rewrite H. Qed.

(** [replace], by the first occurrence of the pattern. *)
Lemma replaceFrom_first pattern replacement s : forall before,
  includes pattern s = true ->
  replaceFrom before pattern replacement s
  = (before +:+ beforeFirst pattern s)
    +:+ getSubstitution pattern (before +:+ beforeFirst pattern s)
          (afterFirst pattern s) replacement
    +:+ afterFirst pattern s.
Proof.
  induction s as [|c s IH]; intros before Hin.
  - cbn [includes] in Hin. rewrite orb_false_r in Hin.
    cbn [replaceFrom beforeFirst afterFirst]. rewrite Hin.
    by rewrite string_app_nil_r.
  - cbn [replaceFrom beforeFirst afterFirst].
    destruct (startsWith pattern (String c s)) eqn:Hs.
    + by rewrite string_app_nil_r.
    + cbn [includes] in Hin. rewrite Hs in Hin. simpl in Hin.
      rewrite (IH _ Hin).
      replace ((before +:+ String c "") +:+ beforeFirst pattern s)
        with (before +:+ String c (beforeFirst pattern s))
        by (by rewrite string_app_assoc).
      done.
Qed.

Lemma replaceFrom_absent pattern replacement s : forall before,
  includes pattern s = false ->
  replaceFrom before pattern replacement s = before +:+ s.
Proof.
  induction s as [|c s IH]; intros before Hin.
  - cbn [includes] in Hin. rewrite orb_false_r in Hin.
    cbn [replaceFrom]. by rewrite Hin, string_app_nil_r.
  - cbn [includes] in Hin. apply orb_false_iff in Hin as [Hs Hin].
    cbn [replaceFrom]. rewrite Hs, (IH _ Hin). by rewrite string_app_assoc.
Qed.

Lemma getSubstitution_plain matched before after c r :
  c ≠ "$"%char ->
  getSubstitution matched before after (String c r)
  = String c (getSubstitution matched before after r).
Proof.
  intros Hc. destruct c as [[] [] [] [] [] [] [] []]; try reflexivity.
  by destruct Hc.
Qed.

(** A text without '$' stands for itself at the head of a replacement. *)
Lemma getSubstitution_app matched before after h r :
  occursb "$" h = false ->
  getSubstitution matched before after (h +:+ r)
  = h +:+ getSubstitution matched before after r.
Proof.
  induction h as [|c h IH]; intros Hh; [done|].
  simpl in Hh. apply orb_false_iff in Hh as [Hc Hh].
  apply bool_decide_eq_false in Hc.
  change (String c h +:+ r) with (String c (h +:+ r)).
  rewrite getSubstitution_plain by congruence.
  rewrite (IH Hh). done.
Qed.

Lemma template_holds_placeholder :
  includes judgePlaceholder JUDGE_PROMPT_TEMPLATE = true.
Proof. by vm_compute. Qed.

Lemma buildJudgePrompt_parts solutionHtml :
  buildJudgePrompt solutionHtml
  = judgePromptPrefix
    +:+ getSubstitution judgePlaceholder judgePromptPrefix judgePromptSuffix solutionHtml
    +:+ judgePromptSuffix.
Proof.
  pose proof (replaceFrom_first judgePlaceholder solutionHtml JUDGE_PROMPT_TEMPLATE ""
                template_holds_placeholder) as H.
  exact H.
Qed.

Lemma getSubstitution_id matched before after h :
  occursb "$" h = false -> getSubstitution matched before after h = h.
Proof.
  intros H. etrans; [|apply (string_app_nil_r h)].
  etrans; [|apply (getSubstitution_app matched before after h "" H)].
  f_equal. symmetry. apply string_app_nil_r.
Qed.

Lemma buildJudgePrompt_plain solutionHtml :
  occursb "$" solutionHtml = false ->
  buildJudgePrompt solutionHtml
  = judgePromptPrefix +:+ solutionHtml +:+ judgePromptSuffix.
Proof.
  intros H. etrans; [apply buildJudgePrompt_parts|].
  f_equal. f_equal. by apply getSubstitution_id.
Qed.

(** X4.  The judge template is its prefix, the placeholder and its suffix,
    and a solution text without '$' is put between prefix and suffix as it
    is. *)
Theorem buildJudgePrompt_embeds_verbatim (solutionHtml : string) :
  occursb "$" solutionHtml = false ->
  JUDGE_PROMPT_TEMPLATE = judgePromptPrefix +:+ judgePlaceholder +:+ judgePromptSuffix
  /\ buildJudgePrompt solutionHtml
     = judgePromptPrefix +:+ solutionHtml +:+ judgePromptSuffix.
Proof.
  intros H. split; [vm_compute; reflexivity|]. by apply buildJudgePrompt_plain.
Qed.

(** X5.  Two solution texts without '$' that give the same judge prompt are
    the same text. *)
Theorem buildJudgePrompt_injective (a b : string) :
  occursb "$" a = false -> occursb "$" b = false ->
  buildJudgePrompt a = buildJudgePrompt b -> a = b.
Proof.
  intros Ha Hb H.
  assert (H' : judgePromptPrefix +:+ a +:+ judgePromptSuffix
               = judgePromptPrefix +:+ b +:+ judgePromptSuffix).
  { etrans; [symmetry; by apply buildJudgePrompt_plain|].
    etrans; [exact H|]. by apply buildJudgePrompt_plain. }
  apply string_app_inv_head in H'. by apply string_app_inv_tail in H'.
Qed.

(** X6.  A solution text is not always put in as it is: where it holds
    [$$] the prompt holds one '$', where it holds [$&] the prompt holds the
    placeholder, and where it holds [$'] the prompt holds the template
    suffix. *)
Theorem buildJudgePrompt_dollar_patterns (a b : string) :
  occursb "$" a = false -> occursb "$" b = false ->
  buildJudgePrompt (a +:+ "$$" +:+ b)
    = judgePromptPrefix +:+ (a +:+ "$" +:+ b) +:+ judgePromptSuffix
  /\ buildJudgePrompt (a +:+ "$&" +:+ b)
     = judgePromptPrefix +:+ (a +:+ judgePlaceholder +:+ b) +:+ judgePromptSuffix
  /\ buildJudgePrompt (a +:+ "$'" +:+ b)
     = judgePromptPrefix +:+ (a +:+ judgePromptSuffix +:+ b) +:+ judgePromptSuffix.
Proof.
  intros Ha Hb.
  assert (Hb' : forall m p s, getSubstitution m p s b = b)
    by (intros; by apply getSubstitution_id).
  split_and!.
  - etrans; [apply buildJudgePrompt_parts|]. f_equal. f_equal.
    etrans; [by apply getSubstitution_app|]. f_equal.
    change ("$$" +:+ b) with (String "$" (String "$" b)).
    cbn [getSubstitution]. by rewrite Hb'.
  - etrans; [apply buildJudgePrompt_parts|]. f_equal. f_equal.
    etrans; [by apply getSubstitution_app|]. f_equal.
    change ("$&" +:+ b) with (String "$" (String "&" b)).
    cbn [getSubstitution]. by rewrite Hb'.
  - etrans; [apply buildJudgePrompt_parts|]. f_equal. f_equal.
    etrans; [by apply getSubstitution_app|]. f_equal.
    change ("$'" +:+ b) with (String "$" (String "'" b)).
    cbn [getSubstitution]. by rewrite Hb'.
Qed.

End JudgePrompt.

(* ================================================================== *)
(** ** Further properties: the verdict parser *)
(* ================================================================== *)

Section VerdictParserMore.
Import Js VerdictReference.

(** The parser by the first non-empty line of its trimmed lines. *)
Lemma parseVerdict_lines raw :
  parseVerdict raw =
  match firstNonEmptyLine (map trim (splitOnLineFeed raw)) with
  | None => {| verdict := "ERROR"; explanation := "Empty response" |}
  | Some (first, rest) =>
      {| verdict := if decide (toUpperCase first = "YES") then "YES" else "NO";
         explanation := trim (join LF rest) |}
  end.
Proof.
  unfold parseVerdict, findIndex. rewrite <- trimmed_lines_agree.
  pose proof (findIndexFrom_first (map trim (splitLines raw)) 0 ltac:(lia)) as H.
  destruct (firstNonEmptyLine (map trim (splitLines raw))) as [[first rest]|].
  - destruct H as (k & -> & Hl & Hd).
    replace (0 + Z.of_nat k =? -1) with false by (symmetry; apply Z.eqb_neq; lia).
    unfold index, slice.
    replace (0 + Z.of_nat k <? 0) with false by (symmetry; apply Z.ltb_ge; lia).
    replace (0 + Z.of_nat k + 1 <? 0) with false by (symmetry; apply Z.ltb_ge; lia).
    replace (Z.to_nat (0 + Z.of_nat k)) with k by lia.
    replace (Z.to_nat (0 + Z.of_nat k + 1)) with (S k) by lia.
    rewrite Hl, Hd. simpl. f_equal.
    destruct (decide (Some (toUpperCase first) = Some "YES")) as [Hy|Hn];
      destruct (decide (toUpperCase first = "YES")) as [Hy'|Hn']; try done.
    + congruence.
    + by rewrite Hy' in Hn.
    + by destruct (decide _).
  - by rewrite H.
Qed.

Lemma trim_empty s : trim s = "" <-> allWhite s = true.
Proof.
  unfold trim. induction s as [|c s IH]; [done|]. simpl.
  destruct (isWhiteSpace c) eqn:Hc; simpl; [exact IH|].
  rewrite Hc. split; [|done]. by destruct (trimEnd s).
Qed.

Lemma trim_skips_space c s : isWhiteSpace c = true -> trim (String c s) = trim s.
Proof. intros H. unfold trim. simpl. by rewrite H. Qed.

Lemma splitOnLineFeed_nonempty s : splitOnLineFeed s <> [].
Proof.
  destruct s as [|c s]; [done|]. simpl.
  destruct (ascii_dec c "010"); [done|]. by destruct (splitOnLineFeed s).
Qed.

Lemma lines_allWhite s :
  firstNonEmptyLine (map trim (splitOnLineFeed s)) = None <-> allWhite s = true.
Proof.
  induction s as [|c s IH]; [done|]. cbn [splitOnLineFeed allWhite].
  destruct (ascii_dec c "010") as [->|Hc].
  - simpl. exact IH.
  - pose proof (splitOnLineFeed_nonempty s) as Hne.
    destruct (splitOnLineFeed s) as [|l ls]; [done|]. simpl in IH |- *.
    destruct (isWhiteSpace c) eqn:Hw.
    + rewrite (trim_skips_space _ _ Hw). exact IH.
    + simpl. split; [|done].
      assert (Ht : trim (String c l) ≠ "").
      { intros Ht. apply trim_empty in Ht. simpl in Ht. by rewrite Hw in Ht. }
      by destruct (trim (String c l)).
Qed.


Lemma trimEnd_idempotent s : trimEnd (trimEnd s) = trimEnd s.
Proof.
  induction s as [|c s IH]; [done|]. simpl.
  destruct (trimEnd s) as [|d r] eqn:E.
  - destruct (isWhiteSpace c) eqn:Hc; [done|]. simpl. by rewrite Hc.
  - cbn [trimEnd]. cbn [trimEnd] in IH. rewrite IH. done.
Qed.

Lemma trimStart_trimEnd c s :
  isWhiteSpace c = false -> trimStart (trimEnd (String c s)) = trimEnd (String c s).
Proof.
  intros Hc. cbn [trimEnd].
  destruct (trimEnd s); rewrite ?Hc; cbn [trimStart]; by rewrite Hc.
Qed.

Lemma trimStart_head s :
  trimStart s = "" \/ exists c r, trimStart s = String c r /\ isWhiteSpace c = false.
Proof.
  induction s as [|c s IH]; [by left|]. simpl.
  destruct (isWhiteSpace c) eqn:Hc; [exact IH|]. right. by exists c, s.
Qed.

Lemma trim_idempotent s : trim (trim s) = trim s.
Proof.
  unfold trim. destruct (trimStart_head s) as [->|(c & r & -> & Hc)]; [done|].
  rewrite (trimStart_trimEnd _ _ Hc). apply trimEnd_idempotent.
Qed.

(** X8.  The explanation the parser returns has no white space at either
    end: trimming it again changes nothing. *)
Theorem parseVerdict_explanation_trimmed (raw : string) :
  trim (explanation (parseVerdict raw)) = explanation (parseVerdict raw).
Proof.
  rewrite parseVerdict_lines.
  destruct (firstNonEmptyLine _) as [[first rest]|]; simpl.
  - apply trim_idempotent.
  - reflexivity.
Qed.

Lemma leading_space_lines c raw :
  isWhiteSpace c = true ->
  firstNonEmptyLine (map trim (splitOnLineFeed (String c raw)))
  = firstNonEmptyLine (map trim (splitOnLineFeed raw)).
Proof.
  intros Hc. cbn [splitOnLineFeed].
  destruct (ascii_dec c "010") as [->|Hlf]; [done|].
  pose proof (splitOnLineFeed_nonempty raw) as Hne.
  destruct (splitOnLineFeed raw) as [|l ls]; [done|]. simpl.
  by rewrite (trim_skips_space _ _ Hc).
Qed.

(** X9.  White space and blank lines before the verdict line do not count:
    a text and the same text after any run of white space are parsed
    alike. *)
Theorem parseVerdict_ignores_leading_space (blank raw : string) :
  allWhite blank = true ->
  parseVerdict (blank +:+ raw) = parseVerdict raw.
Proof.
  intros H. rewrite !parseVerdict_lines.
  induction blank as [|c blank IH]; [done|].
  simpl in H. apply andb_true_iff in H as [Hc H].
  change (String c blank +:+ raw) with (String c (blank +:+ raw)).
  rewrite (leading_space_lines _ _ Hc). by apply IH.
Qed.

End VerdictParserMore.

(* ================================================================== *)
(** ** Further properties: the run for any model lists *)
(* ================================================================== *)

Section AnyLists.

Lemma solverStep_returns total i m sols w :
  exists sols' w', solverStep total i m sols w = (Returned sols', w').
Proof.
  destruct (decide (m = "")) as [->|Hm]; [by eexists _, _|].
  destruct (reusableSolution w m) as [t|] eqn:Hr.
  - eexists _, _. by apply solverStep_reuse.
  - destruct (solverStep_generate total i m sols w Hm Hr)
      as (before & after & _ & _ & _ & ->).
    destruct (callOpenRouter m SOLVER_PROMPT _ w).1; by eexists _, _.
Qed.

Lemma judgeStep_returns total s sol j st w :
  exists st' w', judgeStep total s sol j st w = (Returned st', w').
Proof.
  destruct (decide (pairKeyOf s j ∈ donePairs st)) as [Hin|Hnin].
  - eexists _, _. by apply judgeStep_skip.
  - destruct (judgeStep_judge total s sol j st w Hnin) as (v & e & msgs & H & _).
    eexists _, _. exact H.
Qed.

Lemma solverPhase_returns models w :
  exists sols w', solverPhase models w = (Returned sols, w').
Proof.
  unfold solverPhase.
  destruct (forEach_invariant
              (fun '(i, m) sols => solverStep (length models) i m sols)
              (fun _ _ _ => True) (indexed models) JsObject.empty w)
    as (sols & w' & H & _); [|done|by exists sols, w'].
  intros done [i m] rest s1 w1 _ _.
  destruct (solverStep_returns (length models) i m s1 w1) as (s' & w' & H).
  by exists s', w'.
Qed.

(** [mainWith], phase by phase. *)
Lemma mainWith_phases solvers judges env :
  exists cs dp lm sols w1 st w2,
    loadCritiques (boot env) = (Returned (cs, dp), logged (boot env) lm)
    /\ solverPhase solvers (logged (boot env) (lm ++ [MsgSolverPhase]))
       = (Returned sols, w1)
    /\ judgePhase judges (JsObject.entries sols)
         {| pairIndex := 0; critiques := cs; donePairs := dp |}
         (logged w1 [MsgJudgePhase])
       = (Returned st, w2)
    /\ mainWith solvers judges (boot env)
       = (Returned {| loadedCritiques := cs; loadedPairs := dp;
                      solutions := sols; judged := st |},
          logged w2 [MsgDone (length (critiques st))]).
Proof.
  destruct (loadCritiques_run (boot env)) as (cs & dp & lm & Hload & _).
  destruct (solverPhase_returns solvers (logged (boot env) (lm ++ [MsgSolverPhase])))
    as (sols & w1 & Hsolve).
  destruct (judgePhase_summary judges (JsObject.entries sols)
              {| pairIndex := 0; critiques := cs; donePairs := dp |}
              (logged w1 [MsgJudgePhase])) as (st & w2 & Hjudge & _).
  exists cs, dp, lm, sols, w1, st, w2. split_and!; [done|done|done|].
  unfold mainWith.
  unfold bind at 1. rewrite Hload.
  unfold bind at 1. rewrite logToFile_run, logged_logged.
  unfold bind at 1. rewrite Hsolve.
  unfold bind at 1. rewrite logToFile_run.
  unfold bind at 1. rewrite Hjudge.
  unfold bind at 1. by rewrite logToFile_run.
Qed.


End AnyLists.

(* ================================================================== *)
(** ** Further properties: single iterations *)
(* ================================================================== *)

Section Iterations.
Import Js.

(** X11.  When the capability answers a judge call with a non-success
    status, the Critique appended for the pair has verdict ERROR and an
    explanation made of "Error: OpenRouter error for", the judge, the
    status, the status text and, on the next line, the raw body; the
    collection is written to the critique file, and the pair enters the
    resume index. *)
Theorem judge_failure_explanation
    (total : nat) (s : string) (sol : SolutionRecord) (j : string)
    (st : JudgeState) (w : World) (res : Response) :
  pairKeyOf s j ∉ donePairs st ->
  network w (length (requests w)) = FetchResolved res ->
  ok res = false ->
  let record :=
    critiqueRecord s (slug sol) j "ERROR"
      ("Error: OpenRouter error for " +:+ j +:+ ": " +:+ natToString (status res)
       +:+ " " +:+ statusText res +:+ LF +:+ bodyText res) in
  let result := judgeStep total s sol j st w in
  result.1 = Returned {| pairIndex := S (pairIndex st);
                         critiques := critiques st ++ [record];
                         donePairs := {[ pairKeyOf s j ]} ∪ donePairs st |}
  /\ critiquesFile result.2 = ParsedCritiques (JArray (critiques st ++ [record]))
  /\ requests result.2 = requests w ++ [judgeRequest sol j].
Proof.
  intros Hnew Hnet Hok. cbv zeta.
  destruct (judgeStep_judge total s sol j st w Hnew) as (v & e & msgs & Hrun & Hout).
  cbv zeta in Hrun. rewrite Hrun. simpl.
  rewrite callOpenRouter_outcome, Hnet, Hok in Hout.
  destruct Hout as (_ & -> & ->). done.
Qed.

(** X12.  A judge reply of white space only is no failure of the call: no
    error line is logged, yet the Critique appended has verdict ERROR with
    the explanation "Empty response", and the pair enters the resume
    index like any other. *)
Theorem blank_judgment_recorded
    (total : nat) (s : string) (sol : SolutionRecord) (j : string)
    (st : JudgeState) (w : World) (raw : string) :
  pairKeyOf s j ∉ donePairs st ->
  (callOpenRouter j (buildJudgePrompt (html sol)) {| maxTokens := Some 4000 |} w).1
    = Returned raw ->
  trim raw = "" ->
  let result := judgeStep total s sol j st w in
  result.1 = Returned {| pairIndex := S (pairIndex st);
                         critiques := critiques st
                                      ++ [critiqueRecord s (slug sol) j "ERROR"
                                            "Empty response"];
                         donePairs := {[ pairKeyOf s j ]} ∪ donePairs st |}
  /\ console result.2 = console w ++ [MsgJudging (S (pairIndex st)) total j s].
Proof.
  intros Hnew Hcall Hblank. cbv zeta.
  destruct (judgeStep_judge total s sol j st w Hnew) as (v & e & msgs & Hrun & Hout).
  cbv zeta in Hrun. rewrite Hrun. simpl.
  rewrite Hcall in Hout. destruct Hout as (-> & -> & ->).
  apply trim_empty, lines_allWhite in Hblank.
  rewrite parseVerdict_lines, Hblank. done.
Qed.

Lemma contains_nonempty marker s :
  marker ≠ "" -> containsIgnoringCase marker s -> s ≠ "".
Proof.
  intros Hm (before & mid & after & -> & Hmid) Hs.
  destruct before; [|done]. destruct mid; [|done]. apply Hm. by rewrite <- Hmid.
Qed.

(** X13.  A solution the loop has just generated is found present by the
    membership test exactly when its text, trimmed, contains "<html" up to
    letter case: the next iteration for the model, in this run or a later
    one, then sends no request, and otherwise asks for the solution
    again. *)
Theorem generated_solution_present_iff_marked
    (total i total' i' : nat) (m : string) (sols sols' : Solutions) (w : World)
    (html_ : string) :
  m ≠ "" ->
  ~ solutionPresent w m ->
  (callOpenRouter m SOLVER_PROMPT {| maxTokens := Some 12000 |} w).1 = Returned html_ ->
  let w' := (solverStep total i m sols w).2 in
  files w' !! solutionPath (slugify m) = Some html_
  /\ (solutionPresent w' m <-> containsIgnoringCase "<html" (trim html_))
  /\ (requests (solverStep total' i' m sols' w').2 = requests w'
      <-> containsIgnoringCase "<html" (trim html_)).
Proof.
  intros Hm Habsent Hcall. cbv zeta.
  assert (Hr : reusableSolution w m = None).
  { destruct (reusableSolution w m) eqn:E; [|done].
    destruct Habsent. apply reusableSolution_present. rewrite E. by eexists. }
  destruct (solverStep_generate total i m sols w Hm Hr)
    as (before & after & _ & _ & _ & Hrun).
  rewrite Hcall in Hrun. rewrite Hrun. simpl.
  set (w' := {| files := <[solutionPath (slugify m) := html_]> (files w);
                critiquesFile := critiquesFile w; network := network w;
                requests := requests w ++ [solverRequest m];
                console := _ |}).
  assert (Hf : files w' !! solutionPath (slugify m) = Some html_)
    by apply lookup_insert_eq.
  assert (Hp : solutionPresent w' m <-> containsIgnoringCase "<html" (trim html_)).
  { split.
    - intros (t & Ht & _ & Hc). rewrite Hf in Ht. by injection Ht as <-.
    - intros Hc. exists html_. split_and!; [done| |done].
      by apply (contains_nonempty "<html"). }
  split; [done|]. split; [done|]. rewrite <- Hp.
  destruct (reusableSolution w' m) as [t|] eqn:Hr'.
  - assert (Hp' : solutionPresent w' m)
      by (apply reusableSolution_present; rewrite Hr'; by eexists).
    rewrite (solverStep_reuse total' i' m sols' w' t Hm Hr'). simpl. tauto.
  - assert (Hp' : ~ solutionPresent w' m).
    { intros H. apply reusableSolution_present in H. rewrite Hr' in H. by destruct H. }
    destruct (solverStep_generate total' i' m sols' w' Hm Hr')
      as (before' & after' & _ & _ & _ & Hrun').
    rewrite Hrun'.
    assert (Hgrow : requests w' ++ [solverRequest m] ≠ requests w').
    { intros H. apply (f_equal length) in H. rewrite length_app in H. simpl in H. lia. }
    destruct (callOpenRouter m SOLVER_PROMPT _ w').1; simpl; split; try tauto;
      intros H; by destruct Hgrow.
Qed.

End Iterations.

(* ================================================================== *)
(** ** Further properties: what a run sends *)
(* ================================================================== *)

Section Requests.

Lemma reusableSolution_files w w' m :
  files w !! solutionPath (slugify m) = files w' !! solutionPath (slugify m) ->
  reusableSolution w m = reusableSolution w' m.
Proof. unfold reusableSolution. by intros ->. Qed.

Lemma solverStep_calls total w0 done i m sols w :
  Forall (fun x => slugify x ≠ slugify m) done ->
  SolverCalls w0 done w ->
  exists sols' w',
    solverStep total i m sols w = (Returned sols', w')
    /\ SolverCalls w0 (done ++ [m]) w'.
Proof.
  intros Hfresh (Hfiles & msgs & Hc & Hrq & Hgen).
  assert (Hsame : reusableSolution w m = reusableSolution w0 m)
    by (apply reusableSolution_files, Hfiles, Hfresh).
  assert (Hkeep : forall m', Forall (fun x => slugify x ≠ slugify m') (done ++ [m]) ->
            files w !! solutionPath (slugify m')
            = files w0 !! solutionPath (slugify m')).
  { intros m' H. apply Forall_app in H as [H _]. by apply Hfiles. }
  destruct (decide (m = "")) as [->|Hm].
  { exists sols, w. split; [apply solverStep_empty|]. split; [done|].
    exists msgs. rewrite filter_app, filter_cons_False, filter_nil, app_nil_r by tauto.
    done. }
  destruct (reusableSolution w m) as [t|] eqn:Hr.
  - eexists _, _. split; [by apply solverStep_reuse|]. split; [done|].
    exists (msgs ++ [MsgSkippingSolver (i + 1) total m (solutionPath (slugify m))]).
    rewrite omap_app. simpl. rewrite app_nil_r.
    rewrite filter_app, filter_cons_False, filter_nil, app_nil_r.
    2:{ intros [_ H]. by rewrite <- Hsame in H. }
    split_and!; [|done|done]. by rewrite Hc, app_assoc.
  - destruct (solverStep_generate total i m sols w Hm Hr)
      as (before & after & Hb & Ha & _ & Hrun).
    destruct (detail_projections before Hb) as (_ & B2 & _).
    destruct (detail_projections after Ha) as (_ & A2 & _).
    rewrite Hrun.
    assert (Hfilter : filter (fun m => m ≠ "" /\ reusableSolution w0 m = None)
                        (done ++ [m])
                      = filter (fun m => m ≠ "" /\ reusableSolution w0 m = None) done
                        ++ [m]).
    { rewrite filter_app, filter_cons_True, filter_nil; [done|]. by rewrite <- Hsame. }
    destruct (callOpenRouter m SOLVER_PROMPT _ w).1 as [html_|err].
    + eexists _, _. split; [done|]. split.
      * intros m' H. simpl. apply Forall_app in H as [H Hm'].
        inversion Hm' as [|? ? Hne _]; subst.
        rewrite lookup_insert_ne; [by apply Hfiles|].
        intros Hp. apply Hne. by apply solution_path_injective_aux.
      * exists (msgs ++ before
                  ++ [MsgGenerating (i + 1) total m (solutionPath (slugify m))] ++ after).
        rewrite !omap_app, B2, A2. simpl. rewrite ?app_nil_r, map_app, Hfilter.
        simpl. split_and!.
        -- by rewrite Hc, <- app_assoc.
        -- by rewrite Hrq, <- app_assoc.
        -- by rewrite Hgen.
    + eexists _, _. split; [done|]. split; [exact Hkeep|].
      exists (msgs ++ before
                ++ [MsgGenerating (i + 1) total m (solutionPath (slugify m));
                    MsgErrorGenerating m err]).
      rewrite !omap_app, B2. simpl. rewrite map_app, Hfilter.
      simpl. split_and!.
      * by rewrite Hc, <- app_assoc.
      * by rewrite Hrq, <- app_assoc.
      * by rewrite Hgen.
Qed.

Lemma solverPhase_calls models w :
  NoDup (map slugify models) ->
  exists sols w',
    solverPhase models w = (Returned sols, w') /\ SolverCalls w models w'.
Proof.
  intros Hnd. unfold solverPhase.
  destruct (forEach_invariant
              (fun '(i, m) sols => solverStep (length models) i m sols)
              (fun done _ w' => SolverCalls w done.*2 w')
              (indexed models) JsObject.empty w) as (sols & w' & Hrun & Hsum).
  - intros done [i m] rest sols1 w1 Hxs H.
    rewrite fmap_app. simpl. apply solverStep_calls; [|done].
    assert (Hm : models = done.*2 ++ m :: rest.*2).
    { rewrite <- (indexed_models models), Hxs, fmap_app. done. }
    rewrite Hm, map_app in Hnd. apply NoDup_app in Hnd as (_ & Hnd & _).
    apply Forall_forall. intros x Hx Heq. apply (Hnd (slugify x)).
    + apply list_elem_of_fmap. by exists x.
    + rewrite Heq. simpl. by constructor.
  - split; [done|]. exists []. simpl. by rewrite !app_nil_r.
  - exists sols, w'. split; [done|]. by rewrite indexed_models in Hsum.
Qed.

Lemma judgeStep_calls total st0 w0 done s sol j st w :
  JudgeCalls st0 w0 done w ->
  exists st' w',
    judgeStep total s sol j st w = (Returned st', w')
    /\ JudgeCalls st0 w0 (done ++ [(s, sol, j)]) w'.
Proof.
  intros (reqs & Hrq & Hall).
  assert (Hmono : Forall (fun r => exists t, t ∈ done ++ [(s, sol, j)]
                                             /\ r = judgeRequest t.1.2 t.2) reqs).
  { eapply Forall_impl; [exact Hall|]. intros r (t & Ht & ->).
    exists t. split; [|done]. apply elem_of_app. by left. }
  destruct (decide (pairKeyOf s j ∈ donePairs st)) as [Hin|Hnin].
  - eexists _, _. split; [by apply judgeStep_skip|]. by exists reqs.
  - destruct (judgeStep_judge total s sol j st w Hnin) as (v & e & msgs & Hrun & _).
    cbv zeta in Hrun. eexists _, _. split; [exact Hrun|].
    exists (reqs ++ [judgeRequest sol j]). simpl. split.
    + by rewrite Hrq, app_assoc.
    + apply Forall_app. split; [done|]. constructor; [|done].
      exists (s, sol, j). split; [|done]. apply elem_of_app. right. by constructor.
Qed.

Lemma judgePhase_calls judges entries st w :
  exists st' w',
    judgePhase judges entries st w = (Returned st', w')
    /\ JudgeCalls st w (crossProduct entries judges) w'.
Proof.
  rewrite judgePhase_unfolded.
  apply (forEach_invariant _ (fun done _ w' => JudgeCalls st w done w')).
  - intros done [[s sol] j] rest st1 w1 _ H. by apply judgeStep_calls.
  - exists []. by rewrite app_nil_r.
Qed.

Lemma slugs_NoDup : NoDup (map slugify MODELS).
Proof. apply (bool_decide_unpack _). by vm_compute. Qed.

Lemma reusableSolution_absent w m :
  reusableSolution w m = None <-> ~ solutionPresent w m.
Proof.
  rewrite <- reusableSolution_present. destruct (reusableSolution w m).
  - split; [done|]. intros H. destruct H. by eexists.
  - split; [|done]. by intros _ [? ?].
Qed.

(** The requests and the solver calls of a run with the configured lists. *)
Lemma main_calls env :
  exists locals w judgeRequests,
    main (boot env) = (Returned locals, w)
    /\ omap generatingSolver (console w)
       = filter (fun m => reusableSolution (boot env) m = None) SOLVER_MODELS
    /\ requests w
       = map solverRequest (omap generatingSolver (console w)) ++ judgeRequests
    /\ Forall (fun r => exists s sol j,
                 (s, sol) ∈ JsObject.entries (solutions locals)
                 /\ j ∈ JUDGE_MODELS /\ r = judgeRequest sol j) judgeRequests.
Proof.
  destruct (mainWith_phases SOLVER_MODELS JUDGE_MODELS env)
    as (cs & dp & lm & sols & w1 & st & w2 & Hload & Hsolve & Hjudge & Hrun).
  destruct (loadCritiques_run (boot env)) as (cs' & dp' & lm' & Hload' & Hlm & _).
  rewrite Hload in Hload'. injection Hload' as <- <- <-.
  destruct (load_projections lm Hlm) as (_ & L2 & _).
  destruct (solverPhase_calls SOLVER_MODELS
              (logged (boot env) (lm ++ [MsgSolverPhase])) slugs_NoDup)
    as (sols' & w1' & Hsolve' & _ & msgs1 & Hc1 & Hrq1 & Hgen1).
  rewrite Hsolve in Hsolve'. injection Hsolve' as <- <-.
  destruct (judgePhase_summary JUDGE_MODELS (JsObject.entries sols)
              {| pairIndex := 0; critiques := cs; donePairs := dp |}
              (logged w1 [MsgJudgePhase]))
    as (st' & w2' & Hjudge' & _ & _ & _ & recs & reqs2 & msgs2 & Hc2 & _ & _ & _ & _
        & _ & _ & _ & _ & _ & _ & _ & _ & Hgs2 & _).
  rewrite Hjudge in Hjudge'. injection Hjudge' as <- <-.
  destruct (judgePhase_calls JUDGE_MODELS (JsObject.entries sols)
              {| pairIndex := 0; critiques := cs; donePairs := dp |}
              (logged w1 [MsgJudgePhase]))
    as (st' & w2' & Hjudge' & reqs & Hrq2 & Hall).
  rewrite Hjudge in Hjudge'. injection Hjudge' as <- <-.
  eexists _, _, reqs. split; [exact Hrun|].
  assert (Hgen : omap generatingSolver
                   (console (logged w2 [MsgDone (length (critiques st))]))
                 = omap generatingSolver msgs1).
  { simpl. rewrite Hc2. simpl. rewrite Hc1. simpl.
    rewrite !omap_app, L2, Hgs2. simpl. by rewrite !app_nil_r. }
  rewrite Hgen. simpl solutions. split_and!.
  - rewrite Hgen1. apply filter_agree. intros m Hm. split.
    + by intros [_ H].
    + intros H. split; [|done].
      by destruct (wellFormedId_spec m (model_wellFormed m Hm)) as (? & _).
  - simpl. rewrite Hrq2. simpl. rewrite Hrq1. done.
  - eapply Forall_impl; [exact Hall|]. intros r ([[s sol] j] & Ht & ->).
    apply crossProduct_elem in Ht as [Hs Hj]. by exists s, sol, j.
Qed.

(** X14.  The solver phase asks for a solution for exactly the configured
    models whose Solution is not present when the run starts (no file, an
    empty file, or a file without the marker), each once and in the order
    of the list; a model whose Solution is present is never called. *)
Theorem solver_phase_calls_absent_solutions (env : Environment) :
  exists locals w,
    main (boot env) = (Returned locals, w)
    /\ omap generatingSolver (console w)
       = filter (fun m => reusableSolution (boot env) m = None) SOLVER_MODELS
    /\ (forall m, reusableSolution (boot env) m = None
                  <-> ~ solutionPresent (boot env) m)
    /\ take (length (omap generatingSolver (console w))) (requests w)
       = map solverRequest (omap generatingSolver (console w)).
Proof.
  destruct (main_calls env) as (locals & w & reqs & Hrun & Hgen & Hrq & _).
  exists locals, w. split_and!; [done|done| |].
  - intros m. apply reusableSolution_absent.
  - rewrite Hrq. rewrite <- (length_map solverRequest). by rewrite take_app_length.
Qed.

(** X15.  Every request of a run is one of two kinds: the solver prompt
    with a budget of 12000 tokens, sent to a model the solver phase asked,
    or, after all of these, a budget of 4000 tokens with the judge prompt
    built from the solution held in memory for a solver, sent to a
    configured judge. *)
Theorem run_sends_two_kinds_of_requests (env : Environment) :
  exists locals w judgeRequests,
    main (boot env) = (Returned locals, w)
    /\ requests w
       = map (fun m => {| reqModel := m; reqMaxTokens := 12000;
                          reqPrompt := SOLVER_PROMPT |})
           (omap generatingSolver (console w))
         ++ judgeRequests
    /\ Forall (fun r => exists s sol j,
                 (s, sol) ∈ JsObject.entries (solutions locals)
                 /\ j ∈ JUDGE_MODELS
                 /\ r = {| reqModel := j; reqMaxTokens := 4000;
                           reqPrompt := buildJudgePrompt (html sol) |}) judgeRequests.
Proof.
  destruct (main_calls env) as (locals & w & reqs & Hrun & _ & Hrq & Hall).
  by exists locals, w, reqs.
Qed.

End Requests.

(* ================================================================== *)
(** ** Further properties: the resume index across runs *)
(* ================================================================== *)

Section Resume.

(** The elements of a parsed array that enter the resume index. *)
Lemma indexDonePairs_exact items : forall d d',
  indexDonePairs items d = (d', None) ->
  forall k, k ∈ d' <->
    k ∈ d \/ exists c s j,
      c ∈ items /\ Json.truthy c = true
      /\ Json.truthyProperty (Json.get c "solverModel") = true
      /\ Json.truthyProperty (Json.get c "judgeModel") = true
      /\ Json.toStringProperty (Json.get c "solverModel") = Some s
      /\ Json.toStringProperty (Json.get c "judgeModel") = Some j
      /\ k = pairKeyOf s j.
Proof.
  induction items as [|c items IH]; intros d d' H k.
  - simpl in H. injection H as ->. split; [by left|].
    intros [?|(c & s & j & Hc & _)]; [done|]. by apply elem_of_nil in Hc.
  - cbn [indexDonePairs] in H.
    destruct (Json.truthy c) eqn:T1; cbn [andb] in H.
    2:{ rewrite (IH _ _ H k). split; intros [?|(c' & s & j & Hc & Ht & R)]; try by left.
        - right. exists c', s, j. split; [by constructor|done].
        - apply elem_of_cons in Hc as [->|Hc]; [congruence|].
          right. by exists c', s, j. }
    destruct (Json.truthyProperty (Json.get c "solverModel")) eqn:T2; cbn [andb] in H.
    2:{ rewrite (IH _ _ H k).
        split; intros [?|(c' & s & j & Hc & Ht & Ht2 & R)]; try by left.
        - right. exists c', s, j. split; [by constructor|done].
        - apply elem_of_cons in Hc as [->|Hc]; [congruence|].
          right. by exists c', s, j. }
    destruct (Json.truthyProperty (Json.get c "judgeModel")) eqn:T3.
    2:{ rewrite (IH _ _ H k).
        split; intros [?|(c' & s & j & Hc & Ht & Ht2 & Ht3 & R)]; try by left.
        - right. exists c', s, j. split; [by constructor|done].
        - apply elem_of_cons in Hc as [->|Hc]; [congruence|].
          right. by exists c', s, j. }
    destruct (Json.toStringProperty (Json.get c "solverModel")) as [s0|] eqn:S1; [|done].
    destruct (Json.toStringProperty (Json.get c "judgeModel")) as [j0|] eqn:S2; [|done].
    rewrite (IH _ _ H k). split.
    + intros [Hk|(c' & s & j & Hc & R)].
      * apply elem_of_union in Hk as [Hk|Hk]; [|by left].
        apply elem_of_singleton in Hk. right. exists c, s0, j0.
        split; [by constructor|done].
      * right. exists c', s, j. split; [by constructor|done].
    + intros [Hk|(c' & s & j & Hc & Ht & Ht2 & Ht3 & Hs & Hj & ->)].
      * left. apply elem_of_union. by right.
      * apply elem_of_cons in Hc as [->|Hc].
        -- left. apply elem_of_union. left. apply elem_of_singleton. congruence.
        -- right. by exists c', s, j.
Qed.


Lemma indexDonePairs_accumulator items : forall d d',
  (indexDonePairs items d).2 = (indexDonePairs items d').2.
Proof.
  induction items as [|c items IH]; intros d d'; [done|]. cbn [indexDonePairs].
  destruct (_ && _); [|apply IH].
  destruct (Json.toStringProperty _); [|done].
  destruct (Json.toStringProperty _); [|done]. apply IH.
Qed.

Lemma indexDonePairs_union items : forall d d',
  indexDonePairs items d = (d', None) ->
  d' = (indexDonePairs items ∅).1 ∪ d.
Proof.
  intros d d' H.
  destruct (indexDonePairs items ∅) as [e oe] eqn:He.
  assert (oe = None).
  { pose proof (indexDonePairs_accumulator items d ∅) as Ha.
    rewrite H, He in Ha. simpl in Ha. congruence. }
  subst oe. simpl. apply set_eq. intros k.
  rewrite (indexDonePairs_exact _ _ _ H k), elem_of_union,
    (indexDonePairs_exact _ _ _ He k).
  split.
  - intros [Hk|Hk]; [by right|by left; right].
  - intros [[Hk|Hk]|Hk]; [|by right|by left].
    exfalso. revert Hk. apply not_elem_of_empty.
Qed.

Lemma indexDonePairs_app a b : forall d d',
  indexDonePairs a d = (d', None) ->
  indexDonePairs (a ++ b) d = indexDonePairs b d'.
Proof.
  induction a as [|c a IH]; intros d d' H.
  - simpl in H. by injection H as ->.
  - cbn [indexDonePairs app] in *. destruct (_ && _); [|by apply IH].
    destruct (Json.toStringProperty _); [|done].
    destruct (Json.toStringProperty _); [|done]. by apply IH.
Qed.

Lemma indexDonePairs_critiques recs : forall d,
  Forall (fun r => cfSolver r ≠ "" /\ cfJudge r ≠ "") recs ->
  indexDonePairs (map critiqueJson recs) d
  = (list_to_set (map critiqueKey recs) ∪ d, None).
Proof.
  induction recs as [|r recs IH]; intros d H.
  - simpl. by rewrite (left_id_L ∅ (∪)).
  - inversion H as [|? ? [Hs Hj] Hrest]; subst.
    change (map critiqueJson (r :: recs)) with (critiqueJson r :: map critiqueJson recs).
    cbn [indexDonePairs].
    assert (Ht : Json.truthy (critiqueJson r)
                 && Json.truthyProperty (Json.get (critiqueJson r) "solverModel")
                 && Json.truthyProperty (Json.get (critiqueJson r) "judgeModel") = true).
    { change (Json.get (critiqueJson r) "solverModel") with (Some (JString (cfSolver r))).
      change (Json.get (critiqueJson r) "judgeModel") with (Some (JString (cfJudge r))).
      simpl. destruct (cfSolver r); [done|]. by destruct (cfJudge r). }
    rewrite Ht.
    change (Json.get (critiqueJson r) "solverModel") with (Some (JString (cfSolver r))).
    change (Json.get (critiqueJson r) "judgeModel") with (Some (JString (cfJudge r))).
    cbn [Json.toStringProperty Json.toString]. rewrite (IH _ Hrest).
    f_equal. simpl. unfold critiqueKey at 2. set_solver.
Qed.

End Resume.

(* ================================================================== *)
(** ** Further properties: one run and the next *)
(* ================================================================== *)

#[local] Opaque SOLVER_PROMPT JUDGE_PROMPT_TEMPLATE buildJudgePrompt.

Section NextRun.

Lemma critiqueJson_inj a b : critiqueJson a = critiqueJson b -> a = b.
Proof. destruct a, b. unfold critiqueJson, critiqueRecord. simpl. congruence. Qed.

Lemma map_critiqueJson_inj a : forall b,
  map critiqueJson a = map critiqueJson b -> a = b.
Proof.
  induction a as [|x a IH]; intros [|y b] H; try done.
  cbn [map] in H.
  assert (Hx : critiqueJson x = critiqueJson y) by congruence.
  assert (Hr : map critiqueJson a = map critiqueJson b) by congruence.
  f_equal; [exact (critiqueJson_inj _ _ Hx)|exact (IH _ Hr)].
Qed.

(** The collection the loader returns goes through its index loop without
    an error, and the keys of its elements are in the index it returns. *)
Lemma loaded_collection_index w cs dp w' :
  loadCritiques w = (Returned (cs, dp), w') ->
  exists e, indexDonePairs cs ∅ = (e, None) /\ e ⊆ dp.
Proof.
  unfold loadCritiques.
  destruct (critiquesFile w) as [|err|[ |b0|z0|s0|items|fields]];
    try (intros [= <- <- _]; by exists ∅).
  destruct (indexDonePairs items ∅) as [d [e|]] eqn:E.
  - intros [= <- <- _]. exists ∅. split; [done|]. set_solver.
  - intros [= <- <- _]. by exists d.
Qed.

(** The run with the configured lists, with what it leaves for the next
    one: [recs] are the Critiques it appended. *)
Lemma main_resume env :
  exists locals w recs,
    main (boot env) = (Returned locals, w)
    /\ (loadCritiques (boot env)).1
       = Returned (loadedCritiques locals, loadedPairs locals)
    /\ critiques (judged locals) = loadedCritiques locals ++ map critiqueJson recs
    /\ donePairs (judged locals)
       = list_to_set (map critiqueKey recs) ∪ loadedPairs locals
    /\ omap judgedPair (console w) = map (fun c => (cfSolver c, cfJudge c)) recs
    /\ Forall (fun t => tripleKey t ∈ donePairs (judged locals))
         (crossProduct (JsObject.entries (solutions locals)) JUDGE_MODELS)
    /\ Forall (fun c => (critiqueKey c ∉ loadedPairs locals)
                        /\ cfSolver c ∈ MODELS /\ cfJudge c ∈ MODELS) recs
    /\ Forall (fun f => (f.1.1, f.1.2) ∈ omap judgedPair (console w))
         (omap failedJudgment (console w))
    /\ critiquesFile w
       = match recs with
         | [] => envCritiques env
         | _ => ParsedCritiques (JArray (critiques (judged locals)))
         end.
Proof.
  destruct (main_summary env) as (locals & w & Hrun & Hsum & Hent & Hkeys).
  destruct Hsum as (recs & lm & Hload & Hcr & _ & _ & _ & _ & _ & _ & Hjp & _ & Hrecs
                    & Hfail & _ & Hfile).
  destruct (mainWith_phases SOLVER_MODELS JUDGE_MODELS env)
    as (cs & dp & lm' & sols & w1 & st & w2 & Hload' & Hsolve & Hjudge & Hrun').
  change (mainWith SOLVER_MODELS JUDGE_MODELS) with main in Hrun'.
  rewrite Hrun in Hrun'. injection Hrun' as Hl Hw.
  destruct (judgePhase_summary JUDGE_MODELS (JsObject.entries sols)
              {| pairIndex := 0; critiques := cs; donePairs := dp |}
              (logged w1 [MsgJudgePhase]))
    as (st' & w2' & Hjudge' & _ & _ & _ & recs' & reqs2 & msgs2 & _ & Hcr2 & Hdp2
        & _ & _ & _ & _ & _ & _ & Hdone2 & _).
  rewrite Hjudge in Hjudge'. injection Hjudge' as <- <-.
  subst locals. cbn [loadedCritiques loadedPairs solutions judged] in *.
  assert (recs' = recs) as ->.
  { apply map_critiqueJson_inj. rewrite Hcr2 in Hcr. cbn [critiques] in Hcr.
    by apply app_inv_head in Hcr. }
  cbn [donePairs critiques] in Hdp2, Hcr2.
  exists {| loadedCritiques := cs; loadedPairs := dp; solutions := sols; judged := st |},
    w, recs.
  cbn [loadedCritiques loadedPairs solutions judged].
  split_and!; try done.
  - by rewrite Hload.
  - apply Forall_forall. intros c Hc.
    pose proof (proj1 (Forall_forall _ _) Hrecs c Hc) as (Hnew & sol & Hin & _).
    apply crossProduct_elem in Hin as [Hin Hj]. split_and!; [done| |done].
    apply (proj1 (Forall_forall _ _) Hkeys).
    unfold JsObject.keys. apply list_elem_of_fmap. exists (cfSolver c, sol).
    split; [done|]. by rewrite <- Hent.
  - apply Forall_forall. intros [[s j] err] Hf.
    pose proof (proj1 (Forall_forall _ _) Hfail _ Hf) as (sl & Hin). simpl in Hin.
    rewrite Hjp. apply list_elem_of_fmap. eexists. split; [|exact Hin]. done.
Qed.

(** Loading the file a run left after appending to it. *)
Lemma reload_appended cs dp w0 w0' recs env' :
  loadCritiques w0 = (Returned (cs, dp), w0') ->
  Forall (fun c => cfSolver c ∈ MODELS /\ cfJudge c ∈ MODELS) recs ->
  envCritiques env' = ParsedCritiques (JArray (cs ++ map critiqueJson recs)) ->
  exists index,
    loadCritiques (boot env')
    = (Returned (cs ++ map critiqueJson recs, index),
       logged (boot env') [MsgLoadedCritiques (length (cs ++ map critiqueJson recs))])
    /\ index ⊆ list_to_set (map critiqueKey recs) ∪ dp
    /\ forall c, c ∈ recs -> critiqueKey c ∈ index.
Proof.
  intros Hload Hrecs Hfile.
  destruct (loaded_collection_index _ _ _ _ Hload) as (e & He & Hsub).
  assert (Hidx : indexDonePairs (cs ++ map critiqueJson recs) ∅
                 = (list_to_set (map critiqueKey recs) ∪ e, None)).
  { rewrite (indexDonePairs_app _ _ _ _ He). apply indexDonePairs_critiques.
    eapply Forall_impl; [exact Hrecs|]. intros c [Hs Hj]. simpl in *.
    destruct (wellFormedId_spec _ (model_wellFormed _ Hs)) as (? & _).
    by destruct (wellFormedId_spec _ (model_wellFormed _ Hj)) as (? & _). }
  exists (list_to_set (map critiqueKey recs) ∪ e). split_and!.
  - unfold loadCritiques. change (critiquesFile (boot env')) with (envCritiques env').
    by rewrite Hfile, Hidx.
  - set_solver.
  - intros c Hc. apply elem_of_union. left. apply elem_of_list_to_set.
    apply list_elem_of_fmap. by exists c.
Qed.

(** X17.  When the run ends, the resume index holds the key of every pair
    of a held Solution and a judge, and it is made of the loaded index and
    of the keys of the pairs judged in this run, nothing else. *)
Theorem donePairs_after_run (env : Environment) :
  exists locals w,
    main (boot env) = (Returned locals, w)
    /\ (forall s sol j,
          (s, sol) ∈ JsObject.entries (solutions locals) -> j ∈ JUDGE_MODELS ->
          pairKeyOf s j ∈ donePairs (judged locals))
    /\ (forall k, k ∈ donePairs (judged locals) <->
          k ∈ loadedPairs locals
          \/ exists s j, (s, j) ∈ omap judgedPair (console w) /\ k = pairKeyOf s j).
Proof.
  destruct (main_resume env)
    as (locals & w & recs & Hrun & _ & _ & Hdp & Hjp & Hdone & _).
  exists locals, w. split_and!; [done| |].
  - intros s sol j Hs Hj.
    apply (proj1 (Forall_forall _ _) Hdone (s, sol, j)).
    by apply crossProduct_elem.
  - intros k. rewrite Hdp, Hjp, elem_of_union, elem_of_list_to_set. split.
    + intros [Hk|Hk]; [right|by left].
      apply list_elem_of_fmap in Hk as (c & -> & Hc).
      exists (cfSolver c), (cfJudge c). split; [|done].
      apply list_elem_of_fmap. by exists c.
    + intros [Hk|(s & j & Hk & ->)]; [by right|left].
      apply list_elem_of_fmap in Hk as (c & [= -> ->] & Hc).
      apply list_elem_of_fmap. by exists c.
Qed.

(** X18.  A run that judged at least one pair leaves a critique file that
    loads back: a process started on that file loads the whole collection
    of the run, with the line about the loaded Critiques and no warning,
    and its resume index lies within the index the run ended with and
    holds every pair the run judged. *)
Theorem critiques_file_loads_back (env env' : Environment) :
  omap judgedPair (console (main (boot env)).2) ≠ [] ->
  envCritiques env' = critiquesFile (main (boot env)).2 ->
  exists locals index,
    (main (boot env)).1 = Returned locals
    /\ loadCritiques (boot env')
       = (Returned (critiques (judged locals), index),
          logged (boot env') [MsgLoadedCritiques (length (critiques (judged locals)))])
    /\ index ⊆ donePairs (judged locals)
    /\ forall p, p ∈ omap judgedPair (console (main (boot env)).2) ->
                 pairKeyOf p.1 p.2 ∈ index.
Proof.
  destruct (main_resume env)
    as (locals & w & recs & Hrun & Hload & Hcr & Hdp & Hjp & _ & Hrecs & _ & Hfile).
  rewrite Hrun. cbn [fst snd]. intros Hne Henv.
  destruct (loadCritiques (boot env)) as [o w0'] eqn:Hl. simpl in Hload. subst o.
  assert (Hfile' : envCritiques env'
                   = ParsedCritiques (JArray (loadedCritiques locals
                                              ++ map critiqueJson recs))).
  { rewrite Henv, Hfile, Hcr. destruct recs; [|done]. by rewrite Hjp in Hne. }
  destruct (reload_appended _ _ _ _ recs env' Hl) as (index & Hre & Hsub & Hin);
    [|exact Hfile'|].
  { eapply Forall_impl; [exact Hrecs|]. simpl. tauto. }
  exists locals, index. rewrite Hcr, Hdp. split_and!; [done|done|done|].
  intros p Hp. rewrite Hjp in Hp.
  apply list_elem_of_fmap in Hp as (c & -> & Hc). by apply Hin.
Qed.

(** X19.  A pair judged by one run is not judged by a run started on the
    critique file that run left, whatever the solution files and the
    answers of the capability in the second run; this holds as well for a
    pair whose judgment failed and was recorded with the verdict ERROR,
    which the later run does not try again. *)
Theorem judged_pairs_skipped_by_next_run (env env' : Environment) :
  envCritiques env' = critiquesFile (main (boot env)).2 ->
  (forall p, p ∈ omap judgedPair (console (main (boot env)).2) ->
             p ∉ omap judgedPair (console (main (boot env')).2))
  /\ (forall f, f ∈ omap failedJudgment (console (main (boot env)).2) ->
                (f.1.1, f.1.2) ∉ omap judgedPair (console (main (boot env')).2)).
Proof.
  intros Henv.
  assert (H1 : forall p, p ∈ omap judgedPair (console (main (boot env)).2) ->
                         p ∉ omap judgedPair (console (main (boot env')).2)).
  { intros p Hp.
    destruct (main_resume env)
      as (locals & w & recs & Hrun & Hload & Hcr & _ & Hjp & _ & Hrecs & _ & Hfile).
    rewrite Hrun in Hp, Henv. cbn [snd] in Hp, Henv.
    rewrite Hjp in Hp. apply list_elem_of_fmap in Hp as (c & -> & Hc).
    destruct (loadCritiques (boot env)) as [o w0'] eqn:Hl. simpl in Hload. subst o.
    assert (Hfile' : envCritiques env'
                     = ParsedCritiques (JArray (loadedCritiques locals
                                                ++ map critiqueJson recs))).
    { rewrite Henv, Hfile, Hcr. destruct recs; [by apply elem_of_nil in Hc|done]. }
    destruct (reload_appended _ _ _ _ recs env' Hl) as (index & Hre & _ & Hin);
      [|exact Hfile'|].
    { eapply Forall_impl; [exact Hrecs|]. simpl. tauto. }
    destruct (main_resume env')
      as (locals' & w' & recs' & Hrun' & Hload' & _ & _ & Hjp' & _ & Hrecs' & _).
    rewrite Hrun'. cbn [snd]. rewrite Hjp'. intros Hp'.
    apply list_elem_of_fmap in Hp' as (c' & Heq & Hc'). injection Heq as Hs Hj.
    pose proof (proj1 (Forall_forall _ _) Hrecs' c' Hc') as (Hnew & _).
    apply Hnew. rewrite Hre in Hload'. simpl in Hload'. injection Hload' as _ <-.
    replace (critiqueKey c') with (critiqueKey c)
      by (unfold critiqueKey; by rewrite Hs, Hj).
    by apply Hin. }
  split; [exact H1|].
  intros [[s j] err] Hf. apply H1.
  destruct (main_resume env)
    as (locals & w & recs & Hrun & _ & _ & _ & _ & _ & _ & Hfail & _).
  rewrite Hrun in Hf |- *. cbn [snd] in Hf |- *.
  by apply (proj1 (Forall_forall _ _) Hfail (s, j, err)).
Qed.

End NextRun.

(* ================================================================== *)
(** ** Further properties: the earlier version of the script *)
(* ================================================================== *)

Section EarlierVersion.

Lemma legacyView_logged w msg :
  isDebugLine msg = false ->
  logged (legacyView w) [msg] = legacyView (logged w [msg]).
Proof.
  intros H. unfold legacyView, logged. simpl. f_equal.
  rewrite filter_app, filter_cons_True by done. by rewrite filter_nil.
Qed.

Lemma legacyView_debug w msgs :
  Forall (fun m => isDebugLine m = true) msgs ->
  legacyView (logged w msgs) = legacyView w.
Proof.
  intros H. unfold legacyView, logged. simpl. f_equal.
  rewrite filter_app. rewrite (filter_none _ msgs); [by rewrite app_nil_r|].
  intros x Hx. rewrite (proj1 (Forall_forall _ _) H x Hx). done.
Qed.

Lemma legacyView_boot env : legacyView (boot env) = boot env.
Proof. done. Qed.

Lemma legacyView_sent w m prompt options :
  sent (legacyView w) (requestOf m prompt noOptions)
  = legacyView (sent w (requestOf m prompt options)).
Proof. unfold legacyView, sent. simpl. f_equal. by rewrite map_app. Qed.

(** The answer to a call does not depend on the options, the log or the
    budgets of the earlier requests. *)
Lemma callOpenRouter_view m prompt options w :
  (callOpenRouter m prompt noOptions (legacyView w)).1
  = (callOpenRouter m prompt options w).1.
Proof. rewrite !callOpenRouter_outcome. simpl. by rewrite length_map. Qed.

Lemma debug_lines m html_ w :
  exists msgs,
    logResponseDetails m html_ w = (Returned (), logged w msgs)
    /\ Forall (fun m => isDebugLine m = true) msgs.
Proof.
  unfold logResponseDetails, bind. rewrite !logToFile_run.
  destruct (String.length html_ =? 0)%nat.
  { eexists. unfold logErrorToFile. rewrite !logToFile_run, !logged_logged.
    split; [done|]. by repeat constructor. }
  destruct (String.length html_ <? 100)%nat.
  { eexists. unfold logWarnToFile. rewrite !logToFile_run, !logged_logged.
    split; [done|]. by repeat constructor. }
  rewrite !logToFile_run.
  destruct (500 <? String.length html_)%nat.
  - eexists. rewrite !logToFile_run, !logged_logged.
    split; [done|]. by repeat constructor.
  - eexists. unfold ret. rewrite !logToFile_run, !logged_logged.
    split; [done|]. by repeat constructor.
Qed.

(** Two computations commute with the view when the first one, run in
    the view of a world, ends as the second one run in that world, seen
    through the view. *)
Lemma commutes_ret {A} (a : A) w :
  ret a (legacyView w) = ((ret a w).1, legacyView (ret a w).2).
Proof. done. Qed.

Lemma commutes_bind {A B} (m' m : M A) (k' k : A -> M B) w :
  m' (legacyView w) = ((m w).1, legacyView (m w).2) ->
  (forall a w1, k' a (legacyView w1) = ((k a w1).1, legacyView (k a w1).2)) ->
  bind m' k' (legacyView w) = ((bind m k w).1, legacyView (bind m k w).2).
Proof.
  intros Hm Hk. unfold bind. rewrite Hm. destruct (m w) as [[a|e] w1]; [|done].
  apply Hk.
Qed.

Lemma commutes_tryCatch {A} (m' m : M A) (h' h : JsError -> M A) w :
  m' (legacyView w) = ((m w).1, legacyView (m w).2) ->
  (forall e w1, h' e (legacyView w1) = ((h e w1).1, legacyView (h e w1).2)) ->
  tryCatch m' h' (legacyView w) = ((tryCatch m h w).1, legacyView (tryCatch m h w).2).
Proof.
  intros Hm Hh. unfold tryCatch. rewrite Hm. destruct (m w) as [[a|e] w1]; [done|].
  apply Hh.
Qed.

Lemma commutes_log msg w :
  isDebugLine msg = false ->
  consoleLog msg (legacyView w)
  = ((logToFile msg w).1, legacyView (logToFile msg w).2).
Proof. intros H. unfold consoleLog. by rewrite logToFile_run, legacyView_logged. Qed.

Lemma commutes_call m prompt options w :
  callOpenRouter m prompt noOptions (legacyView w)
  = ((callOpenRouter m prompt options w).1,
     legacyView (callOpenRouter m prompt options w).2).
Proof.
  rewrite (callOpenRouter_pair m prompt noOptions).
  rewrite (callOpenRouter_pair m prompt options w). cbn [fst snd].
  by rewrite (callOpenRouter_view m prompt options w),
    (legacyView_sent w m prompt options).
Qed.

Lemma commutes_writeFile path text_ w :
  writeFile path text_ (legacyView w)
  = ((writeFile path text_ w).1, legacyView (writeFile path text_ w).2).
Proof. done. Qed.

Lemma commutes_writeCritiques cs w :
  writeCritiques cs (legacyView w)
  = ((writeCritiques cs w).1, legacyView (writeCritiques cs w).2).
Proof. done. Qed.

(** The lines about a solver response are not seen through the view. *)
Lemma commutes_debug {B} model_ html_ (k' k : M B) w :
  (forall w1, k' (legacyView w1) = ((k w1).1, legacyView (k w1).2)) ->
  k' (legacyView w)
  = ((bind (logResponseDetails model_ html_) (fun _ => k) w).1,
     legacyView (bind (logResponseDetails model_ html_) (fun _ => k) w).2).
Proof.
  intros Hk. destruct (debug_lines model_ html_ w) as (details & Hd & Hdet).
  unfold bind. rewrite Hd, <- (legacyView_debug w details Hdet). apply Hk.
Qed.

Lemma legacyLoadCritiques_view w :
  legacyLoadCritiques (legacyView w)
  = ((loadCritiques w).1, legacyView (loadCritiques w).2).
Proof.
  unfold legacyLoadCritiques, loadCritiques.
  change (critiquesFile (legacyView w)) with (critiquesFile w).
  destruct (critiquesFile w) as [|err|[ |b0|z0|s0|items|fields]]; try done.
  - apply commutes_bind; [by apply commutes_log|]. intros. apply commutes_ret.
  - destruct (indexDonePairs items ∅) as [d [e|]];
      (apply commutes_bind; [by apply commutes_log|]; intros; apply commutes_ret).
Qed.

(** The earlier judge step does what the current one does, but for the
    token budget of the request. *)
Lemma legacyJudgeStep_view total s sol j st w :
  legacyJudgeStep total s sol j st (legacyView w)
  = ((judgeStep total s sol j st w).1, legacyView (judgeStep total s sol j st w).2).
Proof.
  unfold legacyJudgeStep, judgeStep.
  destruct (bool_decide (pairKeyOf s j ∈ donePairs st)).
  - apply commutes_bind; [by apply commutes_log|]. intros. apply commutes_ret.
  - apply commutes_bind; [by apply commutes_log|]. intros _ w1.
    apply commutes_tryCatch.
    + cbv zeta. apply commutes_bind; [apply commutes_call|]. intros raw w2.
      apply commutes_bind; [apply commutes_writeCritiques|]. intros.
      apply commutes_ret.
    + intros err w2. apply commutes_bind; [by apply commutes_log|]. intros _ w3.
      cbv zeta. apply commutes_bind; [apply commutes_writeCritiques|]. intros.
      apply commutes_ret.
Qed.

Lemma legacyJudgePhase_unfolded judges entries st w :
  legacyJudgePhase judges entries st w
  = forEach (crossProduct entries judges)
      (fun t => legacyJudgeStep (length entries * length judges) t.1.1 t.1.2 t.2) st w.
Proof.
  unfold legacyJudgePhase, crossProduct.
  generalize (length entries * length judges)%nat as total. intros total.
  revert st w. induction entries as [|[s sol] entries IH]; intros st w; [done|].
  cbn [flat_map forEach]. rewrite forEach_app. unfold bind.
  rewrite forEach_map. simpl.
  destruct (forEach judges _ st w) as [[st'|err] w']; [|done].
  apply IH.
Qed.

(** A loop whose steps commute with the view commutes with it. *)
Lemma forEach_view {A S} (body body' : A -> S -> M S)
    (Inv : list A -> S -> World -> Prop) (xs : list A) s w :
  (forall done x rest s w, xs = done ++ x :: rest -> Inv done s w ->
     exists s' w', body x s w = (Returned s', w')
                   /\ body' x s (legacyView w) = (Returned s', legacyView w')
                   /\ Inv (done ++ [x]) s' w') ->
  Inv [] s w ->
  exists s' w',
    forEach xs body s w = (Returned s', w')
    /\ forEach xs body' s (legacyView w) = (Returned s', legacyView w')
    /\ Inv xs s' w'.
Proof.
  intros Hstep H0.
  destruct (forEach_invariant body
              (fun done s1 w1 =>
                 Inv done s1 w1
                 /\ forEach done body' s (legacyView w) = (Returned s1, legacyView w1))
              xs s w) as (s' & w' & Hrun & Hinv & Hrun').
  - intros done x rest s1 w1 Hxs [Hi Hl].
    destruct (Hstep done x rest s1 w1 Hxs Hi) as (s2 & w2 & Hb & Hb' & Hi2).
    exists s2, w2. split_and!; [done|done|].
    rewrite forEach_app. unfold bind. rewrite Hl. cbn [forEach].
    unfold bind. by rewrite Hb'.
  - done.
  - by exists s', w'.
Qed.

Lemma judgePhase_view judges entries st w :
  exists st' w',
    judgePhase judges entries st w = (Returned st', w')
    /\ legacyJudgePhase judges entries st (legacyView w) = (Returned st', legacyView w').
Proof.
  rewrite judgePhase_unfolded, legacyJudgePhase_unfolded.
  destruct (forEach_view
              (fun t => judgeStep (length entries * length judges) t.1.1 t.1.2 t.2)
              (fun t => legacyJudgeStep (length entries * length judges) t.1.1 t.1.2 t.2)
              (fun _ _ _ => True) (crossProduct entries judges) st w)
    as (st' & w' & H1 & H2 & _); [|done|by exists st', w'].
  intros done [[s sol] j] rest st1 w1 _ _. cbn [fst snd].
  destruct (judgeStep_returns (length entries * length judges) s sol j st1 w1)
    as (st2 & w2 & Hrun).
  exists st2, w2. split_and!; [done| |done].
  by rewrite legacyJudgeStep_view, Hrun.
Qed.

(** The earlier solver step on a model whose solution file is absent or
    passes the check of the current version. *)
Lemma legacySolverStep_view total i m sols w :
  files w !! solutionPath (slugify m) = None \/ is_Some (reusableSolution w m) ->
  legacySolverStep total i m sols (legacyView w)
  = ((solverStep total i m sols w).1, legacyView (solverStep total i m sols w).2).
Proof.
  intros Hfile. destruct (decide (m = "")) as [->|Hm]; [done|].
  destruct Hfile as [Hnone|[t Hr]].
  - destruct m as [|c m]; [done|]. set (mm := String c m) in *.
    assert (Hcur : solverStep total i mm sols w
      = (logToFile (MsgGenerating (i + 1) total mm (solutionPath (slugify mm)));;
         tryCatch
           (let* html_ :=
              callOpenRouter mm SOLVER_PROMPT {| maxTokens := Some 12000 |} in
            let hasHtmlTag := Js.includes "<html" (Js.toLowerCase html_) in
            logResponseDetails mm html_;;
            (if negb hasHtmlTag then logWarnToFile (MsgNoHtmlTag mm) else ret ());;
            writeFile (solutionPath (slugify mm)) html_;;
            ret (JsObject.set sols mm
                   {| model := mm; slug := slugify mm; html := html_ |}))
           (fun err => logErrorToFile (MsgErrorGenerating mm err);; ret sols)) w).
    { subst mm. unfold solverStep. cbn [Js.isEmpty]. unfold bind at 1.
      unfold fileExists. rewrite Hnone. rewrite bool_decide_false by (by intros [? ?]). reflexivity. }
    assert (Hold : legacySolverStep total i mm sols (legacyView w)
      = (consoleLog (MsgGenerating (i + 1) total mm (solutionPath (slugify mm)));;
         tryCatch
           (let* html_ := callOpenRouter mm SOLVER_PROMPT noOptions in
            (if negb (Js.includes "<html" (Js.toLowerCase html_))
             then consoleWarn (MsgNoHtmlTag mm) else ret ());;
            writeFile (solutionPath (slugify mm)) html_;;
            ret (JsObject.set sols mm
                   {| model := mm; slug := slugify mm; html := html_ |}))
           (fun err => consoleError (MsgErrorGenerating mm err);; ret sols))
          (legacyView w)).
    { subst mm. unfold legacySolverStep. cbn [Js.isEmpty]. unfold bind at 1.
      unfold fileExists. change (files (legacyView w)) with (files w).
      rewrite Hnone. rewrite bool_decide_false by (by intros [? ?]). reflexivity. }
    rewrite Hcur, Hold. clear Hcur Hold.
    apply commutes_bind; [by apply commutes_log|]. intros _ w1.
    apply commutes_tryCatch.
    + apply commutes_bind; [apply commutes_call|]. intros html_ w2. cbv zeta.
      apply commutes_debug. intros w3.
      apply commutes_bind.
      { destruct (negb _); [by apply commutes_log|apply commutes_ret]. }
      intros _ w4. apply commutes_bind; [apply commutes_writeFile|]. intros.
      apply commutes_ret.
    + intros err w2. apply commutes_bind; [by apply commutes_log|]. intros.
      apply commutes_ret.
  - rewrite (solverStep_reuse total i m sols w t Hm Hr). cbn [fst snd].
    rewrite <- legacyView_logged by done.
    apply reusableSolution_spec in Hr as [Hf _].
    unfold legacySolverStep. destruct m as [|c m]; [done|].
    cbn [Js.isEmpty]. unfold bind at 1. unfold fileExists.
    change (files (legacyView w)) with (files w). rewrite Hf.
    rewrite bool_decide_true by done.
    unfold bind at 1. unfold readFile.
    change (files (legacyView w)) with (files w). by rewrite Hf.
Qed.

Lemma solverPhase_view models w :
  NoDup (map slugify models) ->
  Forall (fun m => files w !! solutionPath (slugify m) = None
                   \/ is_Some (reusableSolution w m)) models ->
  exists sols w',
    solverPhase models w = (Returned sols, w')
    /\ legacySolverPhase models (legacyView w) = (Returned sols, legacyView w').
Proof.
  intros Hnd Hvalid. unfold solverPhase, legacySolverPhase.
  destruct (forEach_view
              (fun '(i, m) sols => solverStep (length models) i m sols)
              (fun '(i, m) sols => legacySolverStep (length models) i m sols)
              (fun done _ w' => SolverCalls w done.*2 w')
              (indexed models) JsObject.empty w)
    as (sols & w' & H1 & H2 & _); [| |by exists sols, w'].
  - intros done [i m] rest sols1 w1 Hxs H.
    assert (Hm : models = done.*2 ++ m :: rest.*2).
    { rewrite <- (indexed_models models), Hxs, fmap_app. done. }
    assert (Hfresh : Forall (fun x => slugify x ≠ slugify m) done.*2).
    { rewrite Hm, map_app in Hnd. apply NoDup_app in Hnd as (_ & Hnd & _).
      apply Forall_forall. intros x Hx Heq. apply (Hnd (slugify x)).
      - apply list_elem_of_fmap. by exists x.
      - rewrite Heq. simpl. by constructor. }
    destruct (solverStep_calls (length models) w done.*2 i m sols1 w1 Hfresh H)
      as (sols2 & w2 & Hrun & Hcalls).
    exists sols2, w2. rewrite fmap_app. split_and!; [done| |done].
    rewrite legacySolverStep_view, Hrun; [done|].
    destruct H as (Hfiles & _).
    assert (Hin : m ∈ models).
    { rewrite Hm. apply elem_of_app. right. by constructor. }
    pose proof (proj1 (Forall_forall _ _) Hvalid m Hin) as Hv.
    rewrite (Hfiles m Hfresh).
    by rewrite (reusableSolution_files w1 w m (Hfiles m Hfresh)).
  - split; [done|]. exists []. simpl. by rewrite !app_nil_r.
Qed.

(** X20.  A solution file that fails the check of the current solver loop
    (blank, or without the marker) is taken as it is by the earlier
    version, which sends nothing for its model, while the current version
    sends the solver request for it. *)
Theorem earlier_version_keeps_invalid_file (total i : nat) (m text_ : string)
    (sols : Solutions) (w : World) :
  m ≠ "" ->
  files w !! solutionPath (slugify m) = Some text_ ->
  reusableSolution w m = None ->
  legacySolverStep total i m sols w
  = (Returned (JsObject.set sols m (solutionOf m text_)),
     logged w [MsgSkippingSolver (i + 1) total m (solutionPath (slugify m))])
  /\ requests (solverStep total i m sols w).2 = requests w ++ [solverRequest m]
  /\ MsgExistingInvalid (i + 1) total m ∈ console (solverStep total i m sols w).2.
Proof.
  intros Hm Hf Hr. split.
  - unfold legacySolverStep. destruct m as [|c m]; [done|].
    cbn [Js.isEmpty]. unfold bind at 1. unfold fileExists. rewrite Hf.
    rewrite bool_decide_true by done.
    unfold bind at 1. unfold readFile. by rewrite Hf.
  - destruct (solverStep_generate total i m sols w Hm Hr)
      as (before & after & _ & _ & _ & Hrun).
    assert (Hbefore : MsgExistingInvalid (i + 1) total m
                      ∈ console (solverStep total i m sols w).2).
    { clear Hrun. unfold solverStep. destruct m as [|c m]; [done|].
      cbn [Js.isEmpty]. unfold reusableSolution in Hr. rewrite Hf in Hr.
      unfold bind at 1. unfold fileExists. rewrite Hf.
      rewrite bool_decide_true by done.
      unfold bind at 1 2. unfold readFile. rewrite Hf.
      destruct (_ || _); [|done].
      unfold bind at 1. unfold logWarnToFile. rewrite logToFile_run.
      unfold ret at 1. unfold bind at 1. rewrite logToFile_run, logged_logged.
      set (body := bind _ _). set (handler := fun err => _).
      set (w1 := logged w _).
      assert (Hmono : forall (A : Type) (mm : M A) (h : JsError -> M A) w0 x,
                 (forall w, exists l, console (mm w).2 = console w ++ l) ->
                 (forall e w, exists l, console (h e w).2 = console w ++ l) ->
                 x ∈ console w0 -> x ∈ console (tryCatch mm h w0).2).
      { intros A mm h w0 x Hmm Hh Hx. unfold tryCatch.
        destruct (Hmm w0) as (l & Hl). destruct (mm w0) as [[a|e] w'] eqn:E.
        - simpl in *. rewrite Hl. apply elem_of_app. by left.
        - destruct (Hh e w') as (l' & Hl'). rewrite Hl'. simpl in Hl. rewrite Hl.
          apply elem_of_app. left. apply elem_of_app. by left. }
      apply Hmono.
      - intros w0. subst body. unfold bind at 1.
        rewrite callOpenRouter_pair.
        destruct (callOpenRouter _ _ _ w0).1 as [html_|err]; [|by exists []; rewrite app_nil_r].
        destruct (debug_lines (String c m) html_ (sent w0 (solverRequest (String c m))))
          as (details & Hd & _).
        unfold bind at 1. fold (solverRequest (String c m)). rewrite Hd.
        destruct (negb _).
        + unfold bind, logWarnToFile. rewrite logToFile_run. simpl.
          eexists. by rewrite <- app_assoc.
        + simpl. by eexists.
      - intros e w0. subst handler. unfold bind, logErrorToFile.
        rewrite logToFile_run. simpl. by eexists.
      - subst w1. simpl. apply elem_of_app. right. by constructor. }
    split; [|exact Hbefore]. rewrite Hrun.
    by destruct (callOpenRouter m SOLVER_PROMPT _ w).1.
Qed.

(** X21.  When every solution file of a configured model is absent or
    passes the check, the earlier version of the script ends with the
    same variables as the current one (the same solutions, the same
    critiques, the same resume index) and leaves the same files; it
    differs by the token budget of its requests, which is the default
    4096, and by the lines about solver responses, which it does not
    print. *)
Theorem earlier_version_same_results (env : Environment) :
  storedSolutionsValid env ->
  exists locals w,
    main (boot env) = (Returned locals, w)
    /\ legacyMain (boot env) = (Returned locals, legacyView w).
Proof.
  intros Hvalid.
  destruct (mainWith_phases SOLVER_MODELS JUDGE_MODELS env)
    as (cs & dp & lm & sols & w1 & st & w2 & Hload & Hsolve & Hjudge & Hrun).
  eexists _, _. split; [exact Hrun|].
  unfold legacyMain.
  unfold bind at 1. rewrite <- (legacyView_boot env) at 1.
  rewrite legacyLoadCritiques_view, Hload. cbn [fst snd].
  unfold bind at 1. unfold consoleLog at 1. rewrite legacyView_logged by done.
  rewrite logged_logged.
  destruct (solverPhase_view MODELS (logged (boot env) (lm ++ [MsgSolverPhase]))
              slugs_NoDup Hvalid) as (sols' & w1' & Hs & Hs').
  change SOLVER_MODELS with MODELS in Hsolve. rewrite Hsolve in Hs.
  injection Hs as <- <-.
  unfold bind at 1. rewrite Hs'.
  unfold bind at 1. unfold consoleLog at 1. rewrite legacyView_logged by done.
  destruct (judgePhase_view MODELS (JsObject.entries sols)
              {| pairIndex := 0; critiques := cs; donePairs := dp |}
              (logged w1 [MsgJudgePhase])) as (st' & w2' & Hj & Hj').
  change JUDGE_MODELS with MODELS in Hjudge. rewrite Hjudge in Hj.
  injection Hj as <- <-.
  unfold bind at 1. rewrite Hj'.
  unfold bind, consoleLog, ret. by rewrite legacyView_logged.
Qed.

End EarlierVersion.

(* ================================================================== *)
(** ** The further properties at concrete inputs *)
(* ================================================================== *)

Section FurtherWitnesses.

#[local] Transparent SOLVER_PROMPT JUDGE_PROMPT_TEMPLATE buildJudgePrompt.
#[local] Transparent judgePromptPrefix judgePromptSuffix judgePlaceholder.

Import FurtherScenario.

Lemma buildJudgePrompt_embeds_verbatim_witness :
  JUDGE_PROMPT_TEMPLATE = judgePromptPrefix +:+ judgePlaceholder +:+ judgePromptSuffix
  /\ buildJudgePrompt Scenario.storedSolution
     = judgePromptPrefix +:+ Scenario.storedSolution +:+ judgePromptSuffix.
Proof.
  exact (buildJudgePrompt_embeds_verbatim Scenario.storedSolution eq_refl).
Defined.

Lemma buildJudgePrompt_injective_witness :
  Scenario.storedSolution = Scenario.storedSolution.
Proof.
  exact (buildJudgePrompt_injective Scenario.storedSolution Scenario.storedSolution
           eq_refl eq_refl eq_refl).
Defined.

Lemma buildJudgePrompt_dollar_patterns_witness :
  buildJudgePrompt ("<b>" +:+ "$$" +:+ "5</b>")
    = judgePromptPrefix +:+ ("<b>" +:+ "$" +:+ "5</b>") +:+ judgePromptSuffix
  /\ buildJudgePrompt ("<b>" +:+ "$&" +:+ "5</b>")
     = judgePromptPrefix +:+ ("<b>" +:+ judgePlaceholder +:+ "5</b>") +:+ judgePromptSuffix
  /\ buildJudgePrompt ("<b>" +:+ "$'" +:+ "5</b>")
     = judgePromptPrefix +:+ ("<b>" +:+ judgePromptSuffix +:+ "5</b>")
       +:+ judgePromptSuffix.
Proof.
  exact (buildJudgePrompt_dollar_patterns "<b>" "5</b>" eq_refl eq_refl).
Defined.

Lemma parseVerdict_ignores_leading_space_witness :
  parseVerdict (blankLines +:+ reply) = parseVerdict reply.
Proof.
  exact (parseVerdict_ignores_leading_space blankLines reply eq_refl).
Defined.

Lemma judge_failure_explanation_witness :
  let record :=
    critiqueRecord Scenario.solver (slug heldSolution) Scenario.judge "ERROR"
      ("Error: OpenRouter error for " +:+ Scenario.judge +:+ ": "
       +:+ Js.natToString (status overloadedResponse)
       +:+ " " +:+ statusText overloadedResponse +:+ Js.LF
       +:+ bodyText overloadedResponse) in
  let result :=
    judgeStep 8 Scenario.solver heldSolution Scenario.judge start
      (boot Scenario.partialFile) in
  result.1 = Returned {| pairIndex := S (pairIndex start);
                         critiques := critiques start ++ [record];
                         donePairs := {[ pairKeyOf Scenario.solver Scenario.judge ]}
                                      ∪ donePairs start |}
  /\ critiquesFile result.2 = ParsedCritiques (JArray (critiques start ++ [record]))
  /\ requests result.2
     = requests (boot Scenario.partialFile) ++ [judgeRequest heldSolution Scenario.judge].
Proof.
  apply (judge_failure_explanation 8 Scenario.solver heldSolution Scenario.judge start
           (boot Scenario.partialFile) overloadedResponse).
  - by_computation.
  - reflexivity.
  - reflexivity.
Defined.

Lemma blank_judgment_recorded_witness :
  let result :=
    judgeStep 8 Scenario.solver heldSolution Scenario.judge start (boot answersBlank) in
  result.1 = Returned {| pairIndex := S (pairIndex start);
                         critiques := critiques start
                                      ++ [critiqueRecord Scenario.solver (slug heldSolution)
                                            Scenario.judge "ERROR" "Empty response"];
                         donePairs := {[ pairKeyOf Scenario.solver Scenario.judge ]}
                                      ∪ donePairs start |}
  /\ console result.2
     = console (boot answersBlank) ++ [MsgJudging (S (pairIndex start)) 8
                                         Scenario.judge Scenario.solver].
Proof.
  apply (blank_judgment_recorded 8 Scenario.solver heldSolution Scenario.judge start
           (boot answersBlank) "  ").
  - by_computation.
  - reflexivity.
  - reflexivity.
Defined.

Lemma generated_solution_present_iff_marked_witness :
  let w' := (solverStep 8 0 Scenario.solver JsObject.empty (boot Scenario.answersAll)).2 in
  files w' !! solutionPath (slugify Scenario.solver) = Some "<html></html>"
  /\ (solutionPresent w' Scenario.solver
      <-> containsIgnoringCase "<html" (Js.trim "<html></html>"))
  /\ (requests (solverStep 8 0 Scenario.solver JsObject.empty w').2 = requests w'
      <-> containsIgnoringCase "<html" (Js.trim "<html></html>")).
Proof.
  apply (generated_solution_present_iff_marked 8 0 8 0 Scenario.solver
           JsObject.empty JsObject.empty (boot Scenario.answersAll) "<html></html>").
  - discriminate.
  - apply reusableSolution_absent. reflexivity.
  - reflexivity.
Defined.


Lemma critiques_file_loads_back_witness :
  exists locals index,
    (main (boot Scenario.resumed)).1 = Returned locals
    /\ loadCritiques (boot (nextRun Scenario.resumed ∅ (fun _ => Scenario.overloaded)))
       = (Returned (critiques (judged locals), index),
          logged (boot (nextRun Scenario.resumed ∅ (fun _ => Scenario.overloaded)))
            [MsgLoadedCritiques (length (critiques (judged locals)))])
    /\ index ⊆ donePairs (judged locals)
    /\ forall p, p ∈ omap judgedPair (console (main (boot Scenario.resumed)).2) ->
                 pairKeyOf p.1 p.2 ∈ index.
Proof.
  apply (critiques_file_loads_back Scenario.resumed
           (nextRun Scenario.resumed ∅ (fun _ => Scenario.overloaded))).
  - by_computation.
  - reflexivity.
Defined.

Lemma judged_pairs_skipped_by_next_run_witness :
  (forall p, p ∈ omap judgedPair (console (main (boot Scenario.resumed)).2) ->
             p ∉ omap judgedPair
                   (console (main (boot (nextRun Scenario.resumed
                                           (envFiles Scenario.resumed)
                                           (fun _ => Scenario.answer "YES")))).2))
  /\ (forall f, f ∈ omap failedJudgment (console (main (boot Scenario.resumed)).2) ->
                (f.1.1, f.1.2)
                ∉ omap judgedPair
                    (console (main (boot (nextRun Scenario.resumed
                                            (envFiles Scenario.resumed)
                                            (fun _ => Scenario.answer "YES")))).2)).
Proof.
  exact (judged_pairs_skipped_by_next_run Scenario.resumed
           (nextRun Scenario.resumed (envFiles Scenario.resumed)
              (fun _ => Scenario.answer "YES")) eq_refl).
Defined.

Lemma earlier_version_keeps_invalid_file_witness :
  legacySolverStep 8 0 Scenario.solver JsObject.empty (boot blankStored)
  = (Returned (JsObject.set JsObject.empty Scenario.solver
                 (solutionOf Scenario.solver "   ")),
     logged (boot blankStored)
       [MsgSkippingSolver (0 + 1) 8 Scenario.solver
          (solutionPath (slugify Scenario.solver))])
  /\ requests (solverStep 8 0 Scenario.solver JsObject.empty (boot blankStored)).2
     = requests (boot blankStored) ++ [solverRequest Scenario.solver]
  /\ MsgExistingInvalid (0 + 1) 8 Scenario.solver
     ∈ console (solverStep 8 0 Scenario.solver JsObject.empty (boot blankStored)).2.
Proof.
  apply (earlier_version_keeps_invalid_file 8 0 Scenario.solver "   " JsObject.empty
           (boot blankStored)).
  - discriminate.
  - by_computation.
  - by_computation.
Defined.

Lemma earlier_version_same_results_witness :
  exists locals w,
    main (boot Scenario.resumed) = (Returned locals, w)
    /\ legacyMain (boot Scenario.resumed) = (Returned locals, legacyView w).
Proof.
  apply (earlier_version_same_results Scenario.resumed).
  unfold storedSolutionsValid. by_computation.
Defined.

End FurtherWitnesses.
